(** * Best-Fit bin packing heuristics: a shallow embedding of [best-fit.cpp]

    The three heuristics of [best-fit.cpp] ([best_fit], [best_fit_heap] and
    [best_fit_lookup]) are embedded as functions into [option]: [None] is an
    access outside an array (or, in the two loops that are not counted
    loops, an exhausted iteration budget).  Values of type [unsigned int]
    are integers in [Z]; every addition and subtraction of the source is
    reduced modulo [2^32] by [u32].  The globals [n], [K] and [min_size] of
    [bin-packing.h] are parameters. *)

From Stdlib Require Import ZArith Lia.
From stdpp Require Import base option list.

Local Open Scope Z_scope.

(** ** Machine arithmetic and arrays *)

Definition uint_max : Z := 2 ^ 32 - 1.

Definition u32 (z : Z) : Z := z mod 2 ^ 32.

(** [a[i]] as an rvalue. *)
Definition rd (a : list Z) (i : Z) : option Z :=
  if decide (0 ≤ i) then a !! Z.to_nat i else None.

(** [a[i] = v]. *)
Definition wr (a : list Z) (i v : Z) : option (list Z) :=
  if decide (0 ≤ i < Z.of_nat (length a)) then Some (<[Z.to_nat i := v]> a)
  else None.

(** The value of [a[i]] where the access is inside the array, 0 elsewhere:
    the total reading used in the statements. *)
Definition elem (a : list Z) (i : Z) : Z := default 0 (rd a i).

(** [for (unsigned i = lo; i < lo + count; i++) body]: the counter stays
    below its bound, so [i++] never wraps. *)
Fixpoint for_loop {St : Type} (body : Z → St → option St)
    (i : Z) (count : nat) (st : St) : option St :=
  match count with
  | O => Some st
  | S c => st' ← body i st; for_loop body (i + 1) c st'
  end.

(** ** [best_fit]: the array heuristic *)

Record bf_state : Type := BfState {
  bins : list Z;
  positions : list Z;
  num_open_bins : Z;
  num_full_bins : Z
}.

Definition bf_init (n : Z) : bf_state :=
  BfState (replicate (Z.to_nat n) 0) (replicate (Z.to_nat n) 0) 1 0.

(** One round of the inner loop: [best] is the pair [(best_bin, best_cap)]. *)
Definition scan_bin (K obj : Z) (bs : list Z) (j : Z) (best : Z * Z)
    : option (Z * Z) :=
  b ← rd bs j;
  let temp_cap := u32 (b + obj) in
  Some (if decide (temp_cap ≤ K ∧ best.2 < temp_cap) then (j, temp_cap)
        else best).

Definition find_best (n K obj : Z) (st : bf_state) : option (Z * Z) :=
  for_loop (scan_bin K obj (bins st)) 0 (Z.to_nat (num_open_bins st)) (n, 0).

Definition bf_place (n limit_capacity i obj : Z) (st : bf_state)
    (best_bin : Z) : option bf_state :=
  if decide (best_bin < n) then
    b ← rd (bins st) best_bin;
    bins1 ← wr (bins st) best_bin (u32 (b + obj));
    pos1 ← wr (positions st) i best_bin;
    if decide (limit_capacity < u32 (b + obj)) then
      let open' := u32 (num_open_bins st - 1) in
      last ← rd bins1 open';
      bins2 ← wr bins1 best_bin last;
      Some (BfState bins2 pos1 open' (u32 (num_full_bins st + 1)))
    else Some (BfState bins1 pos1 (num_open_bins st) (num_full_bins st))
  else
    bins1 ← wr (bins st) (num_open_bins st) obj;
    pos1 ← wr (positions st) i (num_open_bins st);
    Some (BfState bins1 pos1 (u32 (num_open_bins st + 1)) (num_full_bins st)).

Definition bf_body (n K limit_capacity : Z) (objects : list Z)
    (i : Z) (st : bf_state) : option bf_state :=
  obj ← rd objects i;
  best ← find_best n K obj st;
  bf_place n limit_capacity i obj st best.1.

(** The state after the first [i] rounds of the outer loop. *)
Definition bf_run (n K min_size : Z) (objects : list Z) (i : nat)
    : option bf_state :=
  for_loop (bf_body n K (u32 (K - min_size)) objects) 0 i (bf_init n).

Definition bf_count (st : bf_state) : Z :=
  u32 (num_open_bins st + num_full_bins st).

(** The returned bin count together with the filled [positions] buffer. *)
Definition best_fit (n K min_size : Z) (objects : list Z)
    : option (Z * list Z) :=
  st ← bf_run n K min_size objects (Z.to_nat n);
  Some (bf_count st, positions st).

(** ** [best_fit_lookup]: the histogram heuristic *)

(** [while (bin_count[cur_size] == 0) cur_size++;] *)
Fixpoint search_bin (fuel : nat) (bin_count : list Z) (cur_size : Z)
    : option Z :=
  match fuel with
  | O => None
  | S f =>
      c ← rd bin_count cur_size;
      if decide (c = 0) then search_bin f bin_count (u32 (cur_size + 1))
      else Some cur_size
  end.

Definition lk_init (n K : Z) : option (list Z) :=
  wr (replicate (Z.to_nat (u32 (K + 1))) 0) K n.

Definition lk_body (objects : list Z) (i : Z) (bin_count : list Z)
    : option (list Z) :=
  req_size ← rd objects i;
  cur_size ← search_bin (S (length bin_count)) bin_count req_size;
  c ← rd bin_count cur_size;
  bc1 ← wr bin_count cur_size (u32 (c - 1));
  d ← rd bc1 (u32 (cur_size - req_size));
  wr bc1 (u32 (cur_size - req_size)) (u32 (d + 1)).

Definition lk_run (n K : Z) (objects : list Z) (i : nat) : option (list Z) :=
  bc ← lk_init n K; for_loop (lk_body objects) 0 i bc.

Definition lk_sum (K : Z) (bin_count : list Z) : option Z :=
  for_loop (λ i num_bins, c ← rd bin_count i; Some (u32 (num_bins + c)))
           0 (Z.to_nat K) 0.

Definition best_fit_lookup (n K : Z) (objects : list Z) : option Z :=
  bc ← lk_run n K objects (Z.to_nat n);
  lk_sum K bc.

(** ** [simple_heap] *)

(** Modelled from the spec: [simple-heap.h] (the class [simple_heap] with
    its members [elements], [push] and [reheap_down]) is not among the
    sources.  The spec describes a fixed-capacity array-backed binary
    max-heap keyed by bin load, 1-indexed with the children of node [j] at
    [2j] and [2j+1]; [push] inserts a new leaf and restores heap order, and
    the re-heapification after an in-place change of one node restores heap
    order upward or downward as needed. *)
Record simple_heap : Type := SimpleHeap {
  elements : list Z;
  num_elements : Z
}.

(** Modelled from the spec: the constructor [simple_heap(n)], a heap of
    capacity [n] with no element; slot 0 of [elements] is unused. *)
Definition heap_new (capacity : Z) : simple_heap :=
  SimpleHeap (replicate (Z.to_nat (capacity + 1)) 0) 0.

(** Modelled from the spec: the exchange of two nodes. *)
Definition swap (e : list Z) (i j : Z) : list Z :=
  <[Z.to_nat i := elem e j]> (<[Z.to_nat j := elem e i]> e).

(** Modelled from the spec: restoring heap order upward from node [j],
    exchanging it with its parent [j / 2] while the parent is smaller. *)
Fixpoint sift_up (fuel : nat) (e : list Z) (j : Z) : list Z :=
  match fuel with
  | O => e
  | S f =>
      if decide (1 < j ∧ elem e (j / 2) < elem e j)
      then sift_up f (swap e j (j / 2)) (j / 2)
      else e
  end.

(** Modelled from the spec: restoring heap order downward from node [j],
    exchanging it with its larger child while that child is larger. *)
Fixpoint sift_down (fuel : nat) (e : list Z) (num j : Z) : list Z :=
  match fuel with
  | O => e
  | S f =>
      if decide (2 * j ≤ num) then
        let c := if decide (2 * j + 1 ≤ num ∧ elem e (2 * j) < elem e (2 * j + 1))
                 then 2 * j + 1 else 2 * j in
        if decide (elem e j < elem e c) then sift_down f (swap e j c) num c
        else e
      else e
  end.

(** Modelled from the spec: [simple_heap::push] inserts a new leaf and
    restores heap order. *)
Definition push (h : simple_heap) (v : Z) : option simple_heap :=
  let k := num_elements h + 1 in
  e ← wr (elements h) k v;
  Some (SimpleHeap (sift_up (Z.to_nat k) e k) k).

(** Modelled from the spec: [simple_heap::reheap_down], called after the
    load at [j] has been changed in place, restores heap order upward or
    downward as needed. *)
Definition reheap_down (h : simple_heap) (j : Z) : simple_heap :=
  let e := elements h in
  if decide (1 < j ∧ elem e (j / 2) < elem e j)
  then SimpleHeap (sift_up (Z.to_nat j) e j) (num_elements h)
  else SimpleHeap (sift_down (Z.to_nat (num_elements h)) e (num_elements h) j)
                  (num_elements h).

(** ** [best_fit_heap]: the heap heuristic *)

Record hp_state : Type := HpState {
  hp_bins : simple_heap;
  num_bins : Z
}.

Definition hp_init (n : Z) : hp_state := HpState (heap_new n) 0.

(** The breadth-first search: [heap_queue] front first; it ends when the
    queue is empty. *)
Fixpoint bfs (fuel : nat) (K obj : Z) (e : list Z) (nb : Z)
    (heap_queue : list Z) (best : Z * Z) : option (Z * Z) :=
  match heap_queue with
  | [] => Some best
  | j :: rest =>
      match fuel with
      | O => None
      | S f =>
          b ← rd e j;
          let temp_cap := u32 (b + obj) in
          if decide (temp_cap ≤ K) then
            let best' := if decide (best.2 < temp_cap) then (j, temp_cap)
                         else best in
            let q1 := if decide (u32 (2 * j) ≤ nb) then rest ++ [u32 (2 * j)]
                      else rest in
            let q2 := if decide (u32 (2 * j + 1) ≤ nb)
                      then q1 ++ [u32 (2 * j + 1)] else q1 in
            bfs f K obj e nb q2 best'
          else bfs f K obj e nb rest best
      end
  end.

Definition hp_find (n K obj : Z) (st : hp_state) : option (Z * Z) :=
  if decide (num_bins st ≠ 0) then
    root ← rd (elements (hp_bins st)) 1;
    if decide (u32 (root + obj) ≤ K)
    then bfs (S (Z.to_nat (num_bins st))) K obj (elements (hp_bins st))
             (num_bins st) [1] (n, 0)
    else Some (n, 0)
  else Some (n, 0).

Definition hp_place (n obj : Z) (st : hp_state) (best_bin : Z)
    : option hp_state :=
  if decide (best_bin < n) then
    b ← rd (elements (hp_bins st)) best_bin;
    e ← wr (elements (hp_bins st)) best_bin (u32 (b + obj));
    Some (HpState (reheap_down (SimpleHeap e (num_elements (hp_bins st)))
                               best_bin)
                  (num_bins st))
  else
    h ← push (hp_bins st) obj;
    Some (HpState h (u32 (num_bins st + 1))).

Definition hp_body (n K : Z) (objects : list Z) (i : Z) (st : hp_state)
    : option hp_state :=
  obj ← rd objects i;
  best ← hp_find n K obj st;
  hp_place n obj st best.1.

Definition hp_run (n K : Z) (objects : list Z) (i : nat) : option hp_state :=
  for_loop (hp_body n K objects) 0 i (hp_init n).

Definition best_fit_heap (n K : Z) (objects : list Z) : option Z :=
  st ← hp_run n K objects (Z.to_nat n);
  Some (num_bins st).

(** * Specification vocabulary *)

(** ** Problem instances and sums *)

Definition zsum (l : list Z) : Z := foldr Z.add 0 l.

(** [wload w l]: the entries of [l] weighted by [w], [w - 1], ... *)
Fixpoint wload (w : Z) (l : list Z) : Z :=
  match l with
  | [] => 0
  | c :: l' => c * w + wload (w - 1) l'
  end.

(** A valid instance, in the words of the spec: [n] items, a positive
    capacity, every item size positive and at most the capacity. *)
Definition valid_instance (n K : Z) (objects : list Z) : Prop :=
  n = Z.of_nat (length objects) ∧ 0 < K ∧ Forall (λ o, 0 < o ≤ K) objects.

Definition items_sum (objects : list Z) (i : nat) : Z := zsum (take i objects).

Definition ceil_div (a b : Z) : Z := (a + b - 1) / b.

(** The load that [positions] assigns to bin index [b]. *)
Definition bin_load (objects positions : list Z) (b : Z) : Z :=
  zsum ((λ op : Z * Z, if decide (op.2 = b) then op.1 else 0)
          <$> zip objects positions).

(** ** The histogram of [best_fit_lookup] *)

Definition lk_inv (n K : Z) (objects : list Z) (i : nat) (bc : list Z) : Prop :=
  Z.of_nat (length bc) = K + 1 ∧
  Forall (λ c, 0 ≤ c) bc ∧
  zsum bc = n ∧
  n - Z.of_nat i ≤ elem bc K ∧
  wload K bc = items_sum objects i.

(** The histogram after one unit of count has moved from [cur] to
    [cur - s]. *)
Definition lk_move (bc : list Z) (cur s : Z) : list Z :=
  let bc1 := <[Z.to_nat cur := elem bc cur - 1]> bc in
  <[Z.to_nat (cur - s) := elem bc1 (cur - s) + 1]> bc1.

(** ** The open bins of [best_fit] *)

(** [cnt x l]: the number of occurrences of [x] in [l]. *)
Fixpoint cnt (x : Z) (l : list Z) : Z :=
  match l with
  | [] => 0
  | y :: l' => (if decide (y = x) then 1 else 0) + cnt x l'
  end.

Definition open_bins (st : bf_state) : list Z :=
  take (Z.to_nat (num_open_bins st)) (bins st).

(** [best_choice K s open j]: bin [j] is the best fit for an item of size
    [s]: it fits, no open bin that fits ends fuller, and no open bin of
    lower index ends as full. *)
Definition best_choice (K s : Z) (open : list Z) (j : nat) : Prop :=
  ∃ b, open !! j = Some b ∧ b + s ≤ K ∧
       (∀ j' b', open !! j' = Some b' → b' + s ≤ K → b' + s ≤ b + s) ∧
       (∀ j' b', open !! j' = Some b' → (j' < j)%nat → b' + s ≤ K →
                 b' + s < b + s).

Definition none_fits (K s : Z) (open : list Z) : Prop :=
  Forall (λ b, K < b + s) open.

(** The inner loop of [best_fit] over the first [m] bins. *)
Definition scan_inv (n K s : Z) (bs : list Z) (k : nat) (best : Z * Z) : Prop :=
  (best = (n, 0) ∧ ∀ j, 0 ≤ j < Z.of_nat k → K < elem bs j + s) ∨
  (0 ≤ best.1 < Z.of_nat k ∧ best.2 = elem bs best.1 + s ∧ best.2 ≤ K ∧
   (∀ j, 0 ≤ j < Z.of_nat k → elem bs j + s ≤ K → elem bs j + s ≤ best.2) ∧
   (∀ j, 0 ≤ j < best.1 → elem bs j + s ≤ K → elem bs j + s < best.2)).

(** One round of the outer loop of [best_fit], seen on the open bins. *)
Inductive bf_move (K limit s : Z) (i : nat) (st st' : bf_state) : Prop :=
  | bf_fill (j : nat) (b : Z) :
      best_choice K s (open_bins st) j → open_bins st !! j = Some b →
      b + s ≤ limit →
      open_bins st' = <[j := b + s]> (open_bins st) →
      num_open_bins st' = num_open_bins st →
      num_full_bins st' = num_full_bins st →
      positions st' = <[i := Z.of_nat j]> (positions st) →
      bf_move K limit s i st st'
  | bf_retire (j : nat) (b : Z) :
      best_choice K s (open_bins st) j → open_bins st !! j = Some b →
      limit < b + s →
      open_bins st' ≡ₚ delete j (open_bins st) →
      num_open_bins st' = num_open_bins st - 1 →
      num_full_bins st' = num_full_bins st + 1 →
      positions st' = <[i := Z.of_nat j]> (positions st) →
      bf_move K limit s i st st'
  | bf_new :
      none_fits K s (open_bins st) →
      open_bins st' = open_bins st ++ [s] →
      num_open_bins st' = num_open_bins st + 1 →
      num_full_bins st' = num_full_bins st →
      positions st' = <[i := num_open_bins st]> (positions st) →
      bf_move K limit s i st st'.

Definition bf_basic (n K : Z) (i : nat) (st : bf_state) : Prop :=
  Z.of_nat (length (bins st)) = n ∧
  Z.of_nat (length (positions st)) = n ∧
  0 ≤ num_open_bins st ∧ 0 ≤ num_full_bins st ≤ Z.of_nat i ∧
  num_open_bins st + num_full_bins st ≤ n ∧
  Forall (λ b, 0 ≤ b ≤ K) (open_bins st) ∧
  num_open_bins st + num_full_bins st - cnt 0 (open_bins st) ≤ Z.of_nat i.

(** [G] lists the loads of the retired bins: no item is lost. *)
Definition bf_total (K : Z) (objects : list Z) (i : nat) (st : bf_state) : Prop :=
  ∃ G, Z.of_nat (length G) = num_full_bins st ∧
       Forall (λ g, 0 ≤ g ≤ K) G ∧
       zsum (open_bins st ++ G) = items_sum objects i.

(** [hist_rel n K bc L]: entry [c] of the histogram counts the bins of
    load [K - c] in [L]; the bins never opened are counted under [K]. *)
Definition hist_rel (n K : Z) (bc : list Z) (L : list Z) : Prop :=
  ∀ c, 0 ≤ c ≤ K →
       elem bc c = cnt (K - c) L +
                   (if decide (c = K) then n - Z.of_nat (length L) else 0).

(** [G] lists the loads of the retired bins. *)
Definition bf_lk_inv (n K min_size : Z) (st : bf_state) (bc : list Z) : Prop :=
  ∃ G, Z.of_nat (length G) = num_full_bins st ∧
       Forall (λ g, K - min_size < g ≤ K) G ∧
       hist_rel n K bc (open_bins st ++ G).

(** ** The heap order of [simple_heap] *)

(** Every node's load is at least the loads of both children. *)
Definition max_heap (e : list Z) (num : Z) : Prop :=
  ∀ j, 1 ≤ j →
       (2 * j ≤ num → elem e (2 * j) ≤ elem e j) ∧
       (2 * j + 1 ≤ num → elem e (2 * j + 1) ≤ elem e j).

(** The same order, read from the child. *)
Definition parent_order (e : list Z) (num : Z) : Prop :=
  ∀ k, 2 ≤ k ≤ num → elem e k ≤ elem e (k / 2).

(** Heap order everywhere but between [j] and its parent. *)
Definition up_ok (e : list Z) (num j : Z) : Prop :=
  (∀ k, 2 ≤ k ≤ num → k ≠ j → elem e k ≤ elem e (k / 2)) ∧
  (∀ k, 2 ≤ k ≤ num → k / 2 = j → 2 ≤ j → elem e k ≤ elem e (j / 2)).

(** Heap order everywhere but between [j] and its children. *)
Definition down_ok (e : list Z) (num j : Z) : Prop :=
  (∀ k, 2 ≤ k ≤ num → k / 2 ≠ j → elem e k ≤ elem e (k / 2)) ∧
  (∀ k, 2 ≤ k ≤ num → k / 2 = j → 2 ≤ j → elem e k ≤ elem e (j / 2)).

(** ** The rounds of [best_fit_heap] *)

(** [qsorted lo q]: [q] is strictly increasing and above [lo]. *)
Fixpoint qsorted (lo : Z) (q : list Z) : Prop :=
  match q with
  | [] => True
  | x :: q' => lo < x ∧ qsorted x q'
  end.

(** The queue holds heap indices in increasing order, none of them twice
    the front or more. *)
Definition qinv (nb : Z) (q : list Z) : Prop :=
  match q with
  | [] => True
  | j :: rest =>
      1 ≤ j ≤ nb ∧ qsorted j rest ∧ Forall (λ x, x < 2 * j ∧ x ≤ nb) rest
  end.


(** What the search returns: the initial [(n, 0)] or a bin that fits. *)
Definition bfs_res (n K s : Z) (e : list Z) (nb : Z) (best : Z * Z) : Prop :=
  best = (n, 0) ∨ (1 ≤ best.1 ≤ nb ∧ elem e best.1 + s ≤ K).

Definition hp_inv (n K : Z) (objects : list Z) (i : nat) (st : hp_state) : Prop :=
  num_elements (hp_bins st) = num_bins st ∧
  0 ≤ num_bins st ≤ Z.of_nat i ∧
  Z.of_nat (length (elements (hp_bins st))) = n + 1 ∧
  max_heap (elements (hp_bins st)) (num_bins st) ∧
  zsum (elements (hp_bins st)) = items_sum objects i ∧
  Forall (λ b, 0 ≤ b ≤ K) (elements (hp_bins st)) ∧
  (∀ k, 0 ≤ k → ¬ (1 ≤ k ≤ num_bins st) → elem (elements (hp_bins st)) k = 0).

(** The part of [hp_inv] that depends on no bound on the loads. *)
Definition hp_shape (n : Z) (i : nat) (st : hp_state) : Prop :=
  num_elements (hp_bins st) = num_bins st ∧
  0 ≤ num_bins st ≤ Z.of_nat i ∧
  Z.of_nat (length (elements (hp_bins st))) = n + 1 ∧
  max_heap (elements (hp_bins st)) (num_bins st).

(** One round either pushes a new bin or raises one load and re-heapifies. *)
Definition hp_move (s : Z) (st st' : hp_state) : Prop :=
  (∃ h', push (hp_bins st) s = Some h' ∧
         st' = HpState h' (num_bins st + 1)) ∨
  (∃ j, 1 ≤ j ≤ num_bins st ∧
        st' = HpState
                (reheap_down
                   (SimpleHeap
                      (<[Z.to_nat j :=
                           u32 (elem (elements (hp_bins st)) j + s)]>
                         (elements (hp_bins st)))
                      (num_elements (hp_bins st))) j)
                (num_bins st)).

(** * Verification *)

(** One step of evaluation through a bind of the [option] monad. *)
Ltac bind_step := cbn [mbind option_bind].

(** ** Arrays and loops *)

Lemma u32_small z : 0 ≤ z ≤ uint_max → u32 z = z.
Proof. unfold u32, uint_max. intros. apply Z.mod_small. lia. Qed.

Lemma rd_nat a (i : nat) : rd a (Z.of_nat i) = a !! i.
Proof. unfold rd. rewrite decide_True by lia. by rewrite Nat2Z.id. Qed.

Lemma rd_elem a i v : rd a i = Some v → elem a i = v.
Proof. unfold elem. by intros ->. Qed.

Lemma rd_in a i : 0 ≤ i < Z.of_nat (length a) → rd a i = Some (elem a i).
Proof.
  intros Hi. unfold elem, rd. rewrite decide_True by lia.
  destruct (lookup_lt_is_Some_2 a (Z.to_nat i)) as [v Hv]; [lia|].
  by rewrite Hv.
Qed.

Lemma wr_in a i v :
  0 ≤ i < Z.of_nat (length a) → wr a i v = Some (<[Z.to_nat i := v]> a).
Proof. intros. unfold wr. by rewrite decide_True. Qed.

Lemma elem_insert_eq a i v :
  0 ≤ i < Z.of_nat (length a) → elem (<[Z.to_nat i := v]> a) i = v.
Proof.
  intros. unfold elem, rd. rewrite decide_True by lia.
  rewrite list_lookup_insert_eq by lia. done.
Qed.

Lemma elem_insert_ne a i j v :
  0 ≤ i → 0 ≤ j → i ≠ j → elem (<[Z.to_nat i := v]> a) j = elem a j.
Proof.
  intros. unfold elem, rd. rewrite !decide_True by lia.
  rewrite list_lookup_insert_ne by lia. done.
Qed.

Lemma elem_insert a i j v :
  0 ≤ i < Z.of_nat (length a) → 0 ≤ j →
  elem (<[Z.to_nat i := v]> a) j = if decide (j = i) then v else elem a j.
Proof.
  intros Hi Hj. destruct (decide (j = i)) as [->|Hne].
  - by apply elem_insert_eq.
  - apply elem_insert_ne; lia.
Qed.

Lemma for_loop_snoc {St} (body : Z → St → option St) i c st :
  for_loop body i (S c) st =
  st' ← for_loop body i c st; body (i + Z.of_nat c) st'.
Proof.
  revert i st. induction c as [|c IH]; intros i st.
  - simpl. rewrite Z.add_0_r. by destruct (body i st).
  - change (for_loop body i (S (S c)) st)
      with (st' ← body i st; for_loop body (i + 1) (S c) st').
    change (for_loop body i (S c) st)
      with (st' ← body i st; for_loop body (i + 1) c st').
    destruct (body i st) as [st1|]; [|done]. bind_step.
    rewrite IH. replace (i + 1 + Z.of_nat c) with (i + Z.of_nat (S c)) by lia.
    done.
Qed.

(** The loop rule: an invariant indexed by the number of completed rounds. *)
Lemma for_loop_inv {St} (body : Z → St → option St)
    (Inv : nat → St → Prop) (m : nat) st0 :
  Inv O st0 →
  (∀ k st, (k < m)%nat → Inv k st →
     ∃ st', body (Z.of_nat k) st = Some st' ∧ Inv (S k) st') →
  ∀ k, (k ≤ m)%nat → ∃ st, for_loop body 0 k st0 = Some st ∧ Inv k st.
Proof.
  intros H0 Hstep k. induction k as [|k IH]; intros Hk.
  - by exists st0.
  - destruct IH as (st & Hrun & Hinv); [lia|].
    destruct (Hstep k st) as (st' & Hb & Hinv'); [lia|done|].
    exists st'. rewrite for_loop_snoc, Hrun. simpl. by rewrite Z.add_0_l.
Qed.

(** ** Sums over arrays *)

Lemma zsum_app l1 l2 : zsum (l1 ++ l2) = zsum l1 + zsum l2.
Proof. induction l1; simpl; lia. Qed.

Lemma zsum_insert l (i : nat) v x :
  l !! i = Some x → zsum (<[i := v]> l) = zsum l - x + v.
Proof.
  revert i. induction l as [|y l IH]; intros [|i] Hi; simplify_eq/=; [lia|].
  rewrite (IH i) by done. lia.
Qed.

Lemma wload_insert w l (i : nat) v x :
  l !! i = Some x →
  wload w (<[i := v]> l) = wload w l + (v - x) * (w - Z.of_nat i).
Proof.
  revert w i. induction l as [|y l IH]; intros w [|i] Hi; simplify_eq/=; [lia|].
  rewrite (IH _ i) by done. lia.
Qed.

Lemma zsum_replicate k : zsum (replicate k 0) = 0.
Proof. induction k; simpl; lia. Qed.

Lemma wload_replicate w k : wload w (replicate k 0) = 0.
Proof. revert w. induction k; intros; simpl; [done|]. rewrite IHk. lia. Qed.

Lemma zsum_nonneg l : Forall (λ c, 0 ≤ c) l → 0 ≤ zsum l.
Proof. induction 1; simpl; lia. Qed.

Lemma zsum_take_S l (k : nat) x :
  l !! k = Some x → zsum (take (S k) l) = zsum (take k l) + x.
Proof.
  intros H. rewrite (take_S_r _ _ _ H), zsum_app. simpl. lia.
Qed.

Lemma elem_le_zsum l i :
  Forall (λ c, 0 ≤ c) l → 0 ≤ i → elem l i ≤ zsum l.
Proof.
  intros Hl Hi. unfold elem, rd. rewrite decide_True by done.
  generalize (Z.to_nat i). clear Hi. intros k. revert k.
  induction Hl as [|y l Hy Hl IH]; intros [|k]; simpl; try lia.
  - apply zsum_nonneg in Hl. lia.
  - specialize (IH k). lia.
Qed.

(** ** The histogram of [best_fit_lookup] *)

Lemma elem_nonneg l i : Forall (λ c, 0 ≤ c) l → 0 ≤ elem l i.
Proof.
  intros Hl. unfold elem, rd. case_decide; [|done].
  destruct (l !! Z.to_nat i) as [x|] eqn:E; [|done]. simpl.
  by apply (Forall_lookup_1 _ _ _ _ Hl E).
Qed.

Lemma lookup_elem l i :
  0 ≤ i < Z.of_nat (length l) → l !! Z.to_nat i = Some (elem l i).
Proof.
  intros Hi. pose proof (rd_in l i Hi) as H. unfold rd in H.
  by rewrite decide_True in H by lia.
Qed.

Lemma search_bin_spec bc K fuel s :
  Z.of_nat (length bc) = K + 1 → K < uint_max →
  0 ≤ s ≤ K → elem bc K ≠ 0 → K - s < Z.of_nat fuel →
  ∃ cur, search_bin fuel bc s = Some cur ∧ s ≤ cur ≤ K ∧ elem bc cur ≠ 0 ∧
         ∀ c, s ≤ c < cur → elem bc c = 0.
Proof.
  intros Hlen HK. revert s. induction fuel as [|fuel IH]; intros s Hs HbK Hf.
  { simpl in Hf. lia. }
  simpl. rewrite rd_in by lia. bind_step.
  destruct (decide (elem bc s = 0)) as [Hz|Hnz].
  - assert (s < K) by (destruct (decide (s = K)); [congruence|lia]).
    rewrite u32_small by (unfold uint_max in *; lia).
    destruct (IH (s + 1)) as (cur & Hc & Hr & Hne & Hall); [lia|done|lia|].
    exists cur. split_and!; [done|lia|lia|done|].
    intros c Hcr. destruct (decide (c = s)) as [->|]; [done|]. apply Hall. lia.
  - exists s. split_and!; [done|lia|lia|done|]. intros; lia.
Qed.

Lemma lk_init_spec n K objects :
  0 < K → K < uint_max → 0 ≤ n →
  ∃ bc, lk_init n K = Some bc ∧ lk_inv n K objects 0 bc.
Proof.
  intros HK HKm Hn. unfold lk_init.
  rewrite u32_small by (unfold uint_max in *; lia).
  rewrite wr_in by (rewrite length_replicate; lia).
  eexists; split; [done|].
  assert (replicate (Z.to_nat (K + 1)) 0 !! Z.to_nat K = Some 0) as Hlk.
  { apply lookup_replicate_2. lia. }
  unfold lk_inv. split_and!.
  - rewrite length_insert, length_replicate. lia.
  - apply Forall_insert; [|lia]. apply Forall_replicate. lia.
  - rewrite (zsum_insert _ _ _ 0), zsum_replicate by done. lia.
  - rewrite elem_insert_eq by (rewrite length_replicate; lia). lia.
  - rewrite (wload_insert _ _ _ _ 0), wload_replicate by done.
    unfold items_sum. simpl. lia.
Qed.

Lemma lk_body_spec n K objects i bc s :
  0 < K → K < uint_max → n ≤ uint_max →
  lk_inv n K objects i bc → Z.of_nat i < n →
  objects !! i = Some s → 0 < s ≤ K →
  ∃ cur, search_bin (S (length bc)) bc s = Some cur ∧
         s ≤ cur ≤ K ∧ 0 < elem bc cur ∧ (∀ c, s ≤ c < cur → elem bc c = 0) ∧
         lk_body objects (Z.of_nat i) bc = Some (lk_move bc cur s) ∧
         lk_inv n K objects (S i) (lk_move bc cur s).
Proof.
  intros HK HKm Hnm (Hlen & Hnn & Hsum & HbK & Hw) Hin Hs Hsr.
  destruct (search_bin_spec bc K (S (length bc)) s) as (cur & Hc & Hr & Hne & Hall);
    [done|done|lia|lia|lia|].
  pose proof (elem_nonneg bc cur Hnn) as Hc0.
  pose proof (elem_le_zsum bc cur Hnn ltac:(lia)) as Hcn.
  set (bc1 := <[Z.to_nat cur := elem bc cur - 1]> bc).
  assert (Z.of_nat (length bc1) = K + 1) as Hlen1
    by (unfold bc1; by rewrite length_insert).
  assert (Forall (λ c, 0 ≤ c) bc1) as Hnn1
    by (unfold bc1; apply Forall_insert; [done|lia]).
  assert (zsum bc1 = n - 1) as Hsum1.
  { unfold bc1. rewrite (zsum_insert _ _ _ (elem bc cur)); [lia|].
    apply lookup_elem. lia. }
  pose proof (elem_nonneg bc1 (cur - s) Hnn1) as Hd0.
  pose proof (elem_le_zsum bc1 (cur - s) Hnn1 ltac:(lia)) as Hdn.
  exists cur. split_and!; [done|lia|lia|lia|done|..].
  - unfold lk_body. rewrite rd_nat, Hs. bind_step. rewrite Hc.
    bind_step. rewrite rd_in by lia. bind_step.
    rewrite (u32_small (elem bc cur - 1)) by lia.
    rewrite wr_in by lia. bind_step. fold bc1.
    rewrite (u32_small (cur - s)) by (unfold uint_max in *; lia).
    rewrite rd_in by lia. bind_step.
    rewrite u32_small by lia. rewrite wr_in by lia. done.
  - unfold lk_inv, lk_move. fold bc1. split_and!.
    + by rewrite length_insert.
    + apply Forall_insert; [done|lia].
    + rewrite (zsum_insert _ _ _ (elem bc1 (cur - s))); [lia|].
      apply lookup_elem. lia.
    + rewrite elem_insert_ne by lia. unfold bc1.
      rewrite elem_insert by lia. destruct (decide (K = cur)) as [<-|]; lia.
    + rewrite (wload_insert _ _ _ _ (elem bc1 (cur - s)))
        by (apply lookup_elem; lia).
      unfold bc1 at 1.
      rewrite (wload_insert _ _ _ _ (elem bc cur)) by (apply lookup_elem; lia).
      rewrite Hw. unfold items_sum. rewrite (zsum_take_S _ _ _ Hs).
      rewrite !Z2Nat.id by lia. lia.
Qed.

Lemma valid_lookup n K objects (i : nat) :
  valid_instance n K objects → Z.of_nat i < n →
  ∃ s, objects !! i = Some s ∧ 0 < s ≤ K.
Proof.
  intros (Hn & HK & Hall) Hi.
  destruct (lookup_lt_is_Some_2 objects i) as [s Hs]; [lia|].
  exists s. split; [done|]. by apply (Forall_lookup_1 _ _ _ _ Hall Hs).
Qed.

Lemma lk_run_inv n K objects :
  valid_instance n K objects → K < uint_max → n ≤ uint_max →
  ∀ i, (i ≤ Z.to_nat n)%nat →
  ∃ bc, lk_run n K objects i = Some bc ∧ lk_inv n K objects i bc.
Proof.
  intros Hv HKm Hnm i Hi. pose proof Hv as (Hn & HK & Hall).
  destruct (lk_init_spec n K objects) as (bc0 & H0 & Hinv0); [done|done|lia|].
  unfold lk_run. rewrite H0. bind_step.
  apply (for_loop_inv (lk_body objects) (lk_inv n K objects) (Z.to_nat n));
    [done| |done].
  intros k bc Hk Hinv.
  destruct (valid_lookup n K objects k Hv) as (s & Hs & Hsr); [lia|].
  destruct (lk_body_spec n K objects k bc s) as (cur & _ & _ & _ & _ & Hb & Hi');
    [done|done|done|done|lia|done|done|].
  eauto.
Qed.

Lemma lk_run_S n K objects i :
  lk_run n K objects (S i) =
  bc ← lk_run n K objects i; lk_body objects (Z.of_nat i) bc.
Proof.
  unfold lk_run. destruct (lk_init n K) as [bc0|]; [|done].
  bind_step. by rewrite for_loop_snoc, Z.add_0_l.
Qed.

Lemma lk_sum_spec K bc :
  0 ≤ K < Z.of_nat (length bc) → Forall (λ c, 0 ≤ c) bc → zsum bc ≤ uint_max →
  lk_sum K bc = Some (zsum (take (Z.to_nat K) bc)).
Proof.
  intros HK Hnn Hmax. unfold lk_sum.
  destruct (for_loop_inv
    (λ i num_bins, c ← rd bc i; Some (u32 (num_bins + c)))
    (λ k acc, acc = zsum (take k bc)) (Z.to_nat K) 0) with (k := Z.to_nat K)
    as (r & Hr & ->); [done| |lia|done].
  intros k acc Hk ->. rewrite rd_in by lia. bind_step.
  eexists; split; [done|].
  rewrite (zsum_take_S _ _ (elem bc (Z.of_nat k))).
  2:{ rewrite <- (Nat2Z.id k) at 1. apply lookup_elem. lia. }
  apply u32_small.
  assert (zsum (take (S k) bc) ≤ zsum bc).
  { rewrite <- (take_drop (S k) bc) at 2. rewrite zsum_app.
    assert (0 ≤ zsum (drop (S k) bc)); [|lia].
    apply zsum_nonneg. by apply Forall_drop. }
  rewrite (zsum_take_S _ _ (elem bc (Z.of_nat k))) in H.
  2:{ rewrite <- (Nat2Z.id k) at 1. apply lookup_elem. lia. }
  assert (0 ≤ zsum (take k bc)) by (apply zsum_nonneg; by apply Forall_take).
  pose proof (elem_nonneg bc (Z.of_nat k) Hnn). lia.
Qed.

Lemma zsum_split_last K bc :
  Z.of_nat (length bc) = K + 1 → 0 ≤ K →
  zsum bc = zsum (take (Z.to_nat K) bc) + elem bc K.
Proof.
  intros Hlen HK.
  rewrite <- (take_drop (Z.to_nat K) bc) at 1. rewrite zsum_app. f_equal.
  rewrite (drop_S _ (elem bc K)) by (apply lookup_elem; lia).
  rewrite drop_ge by lia. simpl. lia.
Qed.

(** The bin count of [best_fit_lookup]: the entries below [K]. *)
Lemma best_fit_lookup_spec n K objects :
  valid_instance n K objects → K < uint_max → n ≤ uint_max →
  ∃ bc, lk_run n K objects (Z.to_nat n) = Some bc ∧
        lk_inv n K objects (Z.to_nat n) bc ∧
        best_fit_lookup n K objects = Some (n - elem bc K).
Proof.
  intros Hv HKm Hnm. pose proof Hv as (Hn & HK & Hall).
  destruct (lk_run_inv n K objects Hv HKm Hnm (Z.to_nat n)) as (bc & Hr & Hinv);
    [done|].
  exists bc. split_and!; [done|done|].
  destruct Hinv as (Hlen & Hnn & Hsum & HbK & Hw).
  unfold best_fit_lookup. rewrite Hr. bind_step.
  rewrite lk_sum_spec; [|lia|done|lia]. f_equal.
  rewrite (zsum_split_last K bc) in Hsum by lia. lia.
Qed.

(** ** The open bins of [best_fit] *)

Lemma cnt_nonneg x l : 0 ≤ cnt x l.
Proof. induction l; simpl; [done|]. case_decide; lia. Qed.

Lemma cnt_app x l1 l2 : cnt x (l1 ++ l2) = cnt x l1 + cnt x l2.
Proof. induction l1; simpl; lia. Qed.

Lemma cnt_perm x l1 l2 : l1 ≡ₚ l2 → cnt x l1 = cnt x l2.
Proof. induction 1; simpl; lia. Qed.

Lemma cnt_pos_elem x l : 0 < cnt x l → x ∈ l.
Proof.
  induction l as [|y l IH]; simpl; [lia|]. case_decide.
  - subst. intros _. apply list_elem_of_here.
  - intros H1. apply list_elem_of_further, IH. lia.
Qed.

Lemma elem_cnt_pos x l : x ∈ l → 0 < cnt x l.
Proof.
  induction 1 as [y l|y z l _ IH]; simpl.
  - rewrite decide_True by done. pose proof (cnt_nonneg y l). lia.
  - case_decide; lia.
Qed.

Lemma cnt_zero_not_elem x l : x ∉ l → cnt x l = 0.
Proof.
  intros Hx. pose proof (cnt_nonneg x l).
  destruct (decide (0 < cnt x l)) as [H1%cnt_pos_elem|]; [done|lia].
Qed.

Lemma insert_perm_delete (l : list Z) (j : nat) b v :
  l !! j = Some b → <[j := v]> l ≡ₚ v :: delete j l.
Proof.
  revert j. induction l as [|y l IH]; intros [|j] Hj; simplify_eq/=; [done|].
  rewrite (IH j Hj). apply Permutation_swap.
Qed.

Lemma cnt_insert x (l : list Z) (j : nat) b v :
  l !! j = Some b →
  cnt x (<[j := v]> l) =
  cnt x l - (if decide (b = x) then 1 else 0) + (if decide (v = x) then 1 else 0).
Proof.
  intros Hj. rewrite (cnt_perm _ _ _ (insert_perm_delete l j b v Hj)).
  rewrite (cnt_perm _ _ _ (delete_Permutation l j b Hj)). simpl. lia.
Qed.

Lemma cnt_delete x (l : list Z) (j : nat) b :
  l !! j = Some b →
  cnt x (delete j l) = cnt x l - (if decide (b = x) then 1 else 0).
Proof.
  intros Hj. rewrite (cnt_perm _ _ _ (delete_Permutation l j b Hj)). simpl. lia.
Qed.

Lemma delete_app_lt (l1 l2 : list Z) (j : nat) :
  (j < length l1)%nat → delete j (l1 ++ l2) = delete j l1 ++ l2.
Proof.
  revert j. induction l1 as [|y l1 IH]; intros [|j] Hj; simpl in *; try lia.
  - done.
  - f_equal. apply IH. lia.
Qed.

(** Removing slot [j] of the first [m] by moving the last of them there. *)
Lemma swap_remove_perm (l : list Z) (j m : nat) x :
  (j < S m)%nat → l !! m = Some x →
  take m (<[j := x]> l) ≡ₚ delete j (take (S m) l).
Proof.
  intros Hj Hm. pose proof (lookup_lt_Some _ _ _ Hm) as Hlen.
  rewrite (take_S_r _ _ _ Hm).
  assert (length (take m l) = m) as Hlt by (rewrite length_take; lia).
  destruct (decide (j = m)) as [->|Hne].
  - rewrite take_insert_ge by lia.
    rewrite <- Hlt at 2. rewrite delete_middle. by rewrite app_nil_r.
  - rewrite take_insert_lt by lia.
    rewrite delete_app_lt by lia.
    destruct (lookup_lt_is_Some_2 (take m l) j) as [b Hb]; [lia|].
    rewrite (insert_perm_delete _ _ b) by done.
    by rewrite Permutation_cons_append.
Qed.

Lemma scan_spec n K s bs (m : nat) :
  0 < s → (m ≤ length bs)%nat →
  (∀ j, 0 ≤ j < Z.of_nat m → 0 ≤ elem bs j ∧ elem bs j + s ≤ uint_max) →
  ∃ best, for_loop (scan_bin K s bs) 0 m (n, 0) = Some best ∧
          scan_inv n K s bs m best.
Proof.
  intros Hs Hm Hbs.
  apply (for_loop_inv (scan_bin K s bs) (scan_inv n K s bs) m); [| |done].
  { left. split; [done|]. intros; lia. }
  intros k [bb bc] Hk Hinv.
  destruct (Hbs (Z.of_nat k)) as [Hb0 Hbm]; [lia|].
  unfold scan_bin. rewrite rd_in by lia. bind_step.
  rewrite u32_small by lia. eexists; split; [done|].
  cbn [snd]. unfold scan_inv in *. cbn [fst snd] in *.
  destruct (decide (elem bs (Z.of_nat k) + s ≤ K ∧ bc < elem bs (Z.of_nat k) + s))
    as [[Hfit Hbetter]|Hno]; cbn [fst snd].
  - right. split_and!; [lia|lia|done|done|..].
    + intros j Hj Hjf. destruct (decide (j = Z.of_nat k)) as [->|]; [lia|].
      destruct Hinv as [[_ Hnone]|(_ & _ & _ & Hmax & _)].
      * specialize (Hnone j). lia.
      * specialize (Hmax j). lia.
    + intros j Hj Hjf.
      destruct Hinv as [[_ Hnone]|(_ & _ & _ & Hmax & _)].
      * specialize (Hnone j). lia.
      * specialize (Hmax j). lia.
  - destruct Hinv as [[Heq Hnone]|(Hr & Hc & HcK & Hmax & Hlow)].
    + left. split; [done|]. injection Heq as -> ->.
      intros j Hj. destruct (decide (j = Z.of_nat k)) as [->|]; [lia|].
      apply Hnone. lia.
    + right. split_and!; [lia|lia|done|done| |done].
      intros j Hj Hjf. destruct (decide (j = Z.of_nat k)) as [->|]; [lia|].
      apply Hmax; [lia|done].
Qed.

Lemma open_bins_lookup st (j : nat) :
  Z.of_nat j < num_open_bins st → open_bins st !! j = bins st !! j.
Proof. intros. unfold open_bins. apply lookup_take_lt. lia. Qed.

Lemma open_bins_length n K i st :
  bf_basic n K i st → Z.of_nat (length (open_bins st)) = num_open_bins st.
Proof.
  intros (Hlb & _ & Ho & Hf & Hle & _). unfold open_bins.
  rewrite length_take. lia.
Qed.

Lemma delete_insert_same (l : list Z) (j : nat) v :
  delete j (<[j := v]> l) = delete j l.
Proof.
  revert j. induction l as [|y l IH]; intros [|j]; simpl; [done..|].
  by rewrite IH.
Qed.

Lemma none_fits_no_zero K s open :
  s ≤ K → none_fits K s open → cnt 0 open = 0.
Proof.
  intros Hs Hnone. apply cnt_zero_not_elem. intros H0.
  unfold none_fits in Hnone. rewrite Forall_forall in Hnone.
  specialize (Hnone 0 H0). lia.
Qed.

Lemma open_lookup_elem st (j : nat) b :
  open_bins st !! j = Some b →
  Z.of_nat j < num_open_bins st ∧ elem (bins st) (Z.of_nat j) = b.
Proof.
  unfold open_bins. intros [H1 H2]%lookup_take_Some. split; [lia|].
  apply rd_elem. by rewrite rd_nat.
Qed.

Lemma elem_open_lookup n K i st j :
  bf_basic n K i st → 0 ≤ j < num_open_bins st →
  open_bins st !! Z.to_nat j = Some (elem (bins st) j).
Proof.
  intros (Hlb & _ & Ho & Hf & Hle & _) Hj.
  rewrite open_bins_lookup by lia. apply lookup_elem. lia.
Qed.

Lemma bf_body_spec n K limit objects (i : nat) st s :
  2 * K ≤ uint_max → n ≤ uint_max →
  bf_basic n K i st → Z.of_nat i < n → objects !! i = Some s → 0 < s ≤ K →
  ∃ st', bf_body n K limit objects (Z.of_nat i) st = Some st' ∧
         length (bins st') = length (bins st) ∧
         bf_move K limit s i st st'.
Proof.
  intros HK2 Hnm Hb Hi Hs Hsr.
  pose proof (open_bins_length _ _ _ _ Hb) as Hol.
  pose proof (λ j, elem_open_lookup n K i st j Hb) as Hel.
  destruct Hb as (Hlb & Hlp & Ho & Hf & Hle & Hall & Hused).
  assert (∀ j, 0 ≤ j < num_open_bins st → 0 ≤ elem (bins st) j ≤ K) as Hrange.
  { intros j Hj. apply (Forall_lookup_1 _ _ _ _ Hall (Hel j Hj)). }
  unfold bf_body. rewrite rd_nat, Hs. bind_step.
  destruct (scan_spec n K s (bins st) (Z.to_nat (num_open_bins st)))
    as (best & Hbest & Hscan); [lia|lia| |].
  { intros j Hj. specialize (Hrange j). lia. }
  unfold find_best. rewrite Hbest. bind_step.
  destruct Hscan as [[-> Hnone]|(Hr & Hc & HcK & Hmax & Hlow)].
  - (* no open bin fits: a new bin *)
    assert (none_fits K s (open_bins st)) as Hnf.
    { apply Forall_lookup_2. intros j b [Hj <-]%open_lookup_elem.
      apply Hnone. lia. }
    pose proof (none_fits_no_zero K s _ ltac:(lia) Hnf) as Hz.
    cbn [fst]. unfold bf_place. rewrite decide_False by lia.
    rewrite wr_in by lia. bind_step.
    rewrite wr_in by lia. bind_step.
    rewrite u32_small by lia. eexists. split; [done|]. cbn [bins].
    split; [by rewrite length_insert|].
    apply bf_new; cbn [bins positions num_open_bins num_full_bins];
      [done| |done|done|by rewrite Nat2Z.id].
    unfold open_bins at 1. cbn [bins num_open_bins].
    replace (Z.to_nat (num_open_bins st + 1))
      with (S (Z.to_nat (num_open_bins st))) by lia.
    rewrite (take_S_r _ _ s) by (apply list_lookup_insert_eq; lia).
    by rewrite take_insert_ge by lia.
  - (* the best bin [j] *)
    destruct best as [j bc]. cbn [fst snd] in *.
    replace (Z.to_nat (Z.of_nat (Z.to_nat (num_open_bins st))))
      with (Z.to_nat (num_open_bins st)) in * by lia.
    rewrite Z2Nat.id in * by lia.
    set (b := elem (bins st) j) in *.
    destruct (Hrange j) as [Hb0 HbK]; [lia|]. fold b in Hb0, HbK.
    assert (best_choice K s (open_bins st) (Z.to_nat j)) as Hbc.
    { exists b. split_and!.
      - apply Hel. lia.
      - lia.
      - intros j' b' [Hj' <-]%open_lookup_elem Hfit.
        specialize (Hmax (Z.of_nat j')). lia.
      - intros j' b' [Hj' <-]%open_lookup_elem Hlt Hfit.
        specialize (Hlow (Z.of_nat j')). lia. }
    unfold bf_place. rewrite decide_True by lia.
    rewrite rd_in by lia. bind_step. fold b.
    rewrite u32_small by lia.
    rewrite wr_in by lia. bind_step.
    rewrite wr_in by lia. bind_step. rewrite Nat2Z.id.
    destruct (decide (limit < b + s)) as [Hfull|Hroom].
    + rewrite u32_small by lia.
      set (bins1 := <[Z.to_nat j := b + s]> (bins st)).
      assert (length bins1 = length (bins st)) as Hl1
        by (unfold bins1; by rewrite length_insert).
      rewrite rd_in by lia. bind_step.
      rewrite wr_in by lia. bind_step.
      rewrite u32_small by lia. eexists. split; [done|]. cbn [bins].
      split; [by rewrite length_insert|].
      apply (bf_retire _ _ _ _ _ _ (Z.to_nat j) b);
        cbn [bins positions num_open_bins num_full_bins];
        [done|apply Hel; lia|done| |done|done|by rewrite Z2Nat.id by lia].
      unfold open_bins at 1. cbn [bins num_open_bins].
      rewrite (swap_remove_perm bins1 (Z.to_nat j)
                 (Z.to_nat (num_open_bins st - 1))
                 (elem bins1 (num_open_bins st - 1)));
        [|lia|apply lookup_elem; lia].
      replace (S (Z.to_nat (num_open_bins st - 1)))
        with (Z.to_nat (num_open_bins st)) by lia.
      unfold bins1. rewrite take_insert_lt by lia.
      by rewrite delete_insert_same.
    + eexists. split; [done|]. cbn [bins].
      split; [by rewrite length_insert|].
      apply (bf_fill _ _ _ _ _ _ (Z.to_nat j) b);
        cbn [bins positions num_open_bins num_full_bins];
        [done|apply Hel; lia|lia| |done|done|by rewrite Z2Nat.id by lia].
      unfold open_bins at 1. cbn [bins num_open_bins].
      by rewrite take_insert_lt by lia.
Qed.

Lemma best_choice_lookup K s open j b :
  best_choice K s open j → open !! j = Some b →
  b + s ≤ K ∧ ∀ b', b' ∈ open → b' + s ≤ K → b' ≤ b.
Proof.
  intros (b0 & Hb0 & Hfit & Hmax & _) Hb. simplify_eq. split; [done|].
  intros b' [j' Hj']%list_elem_of_lookup_1 Hf. specialize (Hmax j' b' Hj' Hf). lia.
Qed.

Lemma bf_basic_init n K : 1 ≤ n → 0 ≤ K → bf_basic n K 0 (bf_init n).
Proof.
  intros Hn HK. unfold bf_basic, bf_init, open_bins.
  cbn [bins positions num_open_bins num_full_bins].
  rewrite !length_replicate.
  assert (take (Z.to_nat 1) (replicate (Z.to_nat n) 0) = [0]) as ->.
  { destruct (Z.to_nat n) as [|k] eqn:E; [lia|]. simpl. by rewrite take_0. }
  split_and!; try lia.
  - repeat constructor; lia.
  - simpl. lia.
Qed.

Lemma bf_basic_step n K limit s (i : nat) st st' :
  bf_basic n K i st → Z.of_nat i < n → 0 < s ≤ K →
  length (bins st') = length (bins st) →
  bf_move K limit s i st st' → bf_basic n K (S i) st'.
Proof.
  intros Hb Hi Hs Hlen Hmove.
  pose proof (open_bins_length _ _ _ _ Hb) as Hol.
  destruct Hb as (Hlb & Hlp & Ho & Hf & Hle & Hall & Hused).
  destruct Hmove as [j b Hbc Hj Hlim Hopen Hno Hnf Hpos
                    |j b Hbc Hj Hlim Hopen Hno Hnf Hpos
                    |Hnone Hopen Hno Hnf Hpos];
    unfold bf_basic; rewrite Hlen, Hpos, length_insert, Hno, Hnf, ?Hopen.
  - destruct (best_choice_lookup _ _ _ _ _ Hbc Hj) as [Hfit _].
    pose proof (Forall_lookup_1 _ _ _ _ Hall Hj) as Hb0. cbn beta in Hb0.
    split_and!; try lia.
    + apply Forall_insert; [done|lia].
    + rewrite (cnt_insert _ _ _ b) by done. repeat case_decide; lia.
  - destruct (best_choice_lookup _ _ _ _ _ Hbc Hj) as [Hfit _].
    pose proof (lookup_lt_Some _ _ _ Hj) as Hjl.
    split_and!; try lia.
    + rewrite Hopen. by apply Forall_delete.
    + rewrite (cnt_perm _ _ _ Hopen), (cnt_delete _ _ _ b) by done.
      case_decide; lia.
  - pose proof (none_fits_no_zero K s _ ltac:(lia) Hnone) as Hz.
    split_and!; try lia.
    + apply Forall_app. split; [done|]. repeat constructor; lia.
    + rewrite cnt_app. simpl. case_decide; lia.
Qed.

Lemma bf_run_S n K min_size objects i :
  bf_run n K min_size objects (S i) =
  st ← bf_run n K min_size objects i;
  bf_body n K (u32 (K - min_size)) objects (Z.of_nat i) st.
Proof. unfold bf_run. by rewrite for_loop_snoc, Z.add_0_l. Qed.

(** The rounds of [best_fit] on a valid instance all succeed. *)
Lemma bf_run_basic n K min_size objects :
  valid_instance n K objects → 2 * K ≤ uint_max → n ≤ uint_max →
  ∀ i, (i ≤ Z.to_nat n)%nat → (0 < Z.to_nat n)%nat →
  ∃ st, bf_run n K min_size objects i = Some st ∧ bf_basic n K i st.
Proof.
  intros Hv HK2 Hnm i Hi Hpos. pose proof Hv as (Hn & HK & Hall).
  apply (for_loop_inv _ (bf_basic n K) (Z.to_nat n)); [| |done].
  { apply bf_basic_init; lia. }
  intros k st Hk Hb.
  destruct (valid_lookup n K objects k Hv) as (s & Hs & Hsr); [lia|].
  destruct (bf_body_spec n K (u32 (K - min_size)) objects k st s)
    as (st' & Hbody & Hlen & Hmove); [done|done|done|lia|done|done|].
  exists st'. split; [done|].
  apply (bf_basic_step n K (u32 (K - min_size)) s k st st');
    [done|lia|done|done|done].
Qed.

(** ** [best_fit] against the histogram of [best_fit_lookup] *)

Lemma lk_move_elem bc cur s K c :
  Z.of_nat (length bc) = K + 1 → 0 ≤ cur - s → cur ≤ K → 0 < s → 0 ≤ c ≤ K →
  elem (lk_move bc cur s) c =
  elem bc c - (if decide (c = cur) then 1 else 0)
            + (if decide (c = cur - s) then 1 else 0).
Proof.
  intros Hlen H1 H2 H3 Hc. unfold lk_move.
  rewrite (elem_insert _ (cur - s)) by (rewrite ?length_insert; lia).
  rewrite !(elem_insert _ cur) by lia.
  repeat case_decide; subst; lia.
Qed.

(** Both heuristics serve an item from a bin of the same load. *)
Lemma bf_lk_step n K min_size s (i : nat) st st' bc cur :
  0 ≤ min_size ≤ s → 0 < s ≤ K →
  bf_basic n K i st → Z.of_nat (length bc) = K + 1 →
  bf_lk_inv n K min_size st bc →
  bf_move K (K - min_size) s i st st' →
  s ≤ cur ≤ K → 0 < elem bc cur → (∀ c, s ≤ c < cur → elem bc c = 0) →
  bf_lk_inv n K min_size st' (lk_move bc cur s).
Proof.
  intros Hms Hs Hb Hlen (G & HGl & HG & Hh) Hmove Hcur Hpos Hzero.
  pose proof (open_bins_length _ _ _ _ Hb) as Hol.
  destruct Hb as (Hlb & Hlp & Ho & Hf & Hle & Hall & Hused).
  assert (∀ x, x ∈ G → K < x + s) as HGfit.
  { intros x Hx. rewrite Forall_forall in HG. specialize (HG x Hx). lia. }
  assert (∀ c, s ≤ c < K → 0 < elem bc c → K - c ∈ open_bins st) as Hfind.
  { intros c Hc Hc0. rewrite (Hh c) in Hc0 by lia.
    rewrite decide_False in Hc0 by lia.
    assert (K - c ∈ open_bins st ++ G) as [?|HinG]%elem_of_app
      by (apply cnt_pos_elem; lia); [done|].
    specialize (HGfit _ HinG). lia. }
  assert (Z.of_nat (length (open_bins st ++ G)) =
          num_open_bins st + num_full_bins st) as HLl
    by (rewrite length_app; lia).
  destruct Hmove as [j b Hbc Hj Hlim Hopen Hno Hnf Hpos'
                    |j b Hbc Hj Hlim Hopen Hno Hnf Hpos'
                    |Hnone Hopen Hno Hnf Hpos'].
  1,2: destruct (best_choice_lookup _ _ _ _ _ Hbc Hj) as [Hfit Hmax];
       pose proof (Forall_lookup_1 _ _ _ _ Hall Hj) as Hb0; cbn beta in Hb0;
       assert (0 < elem bc (K - b)) as HposKb
         by (rewrite (Hh (K - b)) by lia;
             replace (K - (K - b)) with b by lia;
             rewrite cnt_app;
             pose proof (elem_cnt_pos b (open_bins st)
                           (list_elem_of_lookup_2 _ _ _ Hj));
             pose proof (cnt_nonneg b G); case_decide; lia);
       assert (cur = K - b) as ->
         by (assert (cur ≤ K - b)
               by (destruct (decide (cur ≤ K - b)); [done|];
                   specialize (Hzero (K - b)); lia);
             destruct (decide (cur = K)); [lia|];
             specialize (Hmax (K - cur) (Hfind cur ltac:(lia) Hpos)); lia).
  - exists G. rewrite Hnf. split_and!; [done|done|].
    intros c Hc. rewrite (lk_move_elem _ _ _ K) by lia.
    rewrite (Hh c Hc), Hopen, !cnt_app, (cnt_insert _ _ _ b) by done.
    rewrite !length_app, length_insert. repeat case_decide; lia.
  - exists ((b + s) :: G). rewrite Hnf. split_and!.
    + simpl. lia.
    + constructor; [lia|done].
    + pose proof (lookup_lt_Some _ _ _ Hj) as Hjl.
      intros c Hc. rewrite (lk_move_elem _ _ _ K) by lia.
      rewrite (Hh c Hc), !cnt_app, (cnt_perm _ _ _ Hopen),
        (cnt_delete _ _ _ b) by done.
      rewrite !length_app, (Permutation_length Hopen), length_delete by eauto.
      simpl. repeat case_decide; lia.
  - assert (cur = K) as ->.
    { destruct (decide (cur = K)); [done|].
      pose proof (Hfind cur ltac:(lia) Hpos) as Hin.
      unfold none_fits in Hnone. rewrite Forall_forall in Hnone.
      specialize (Hnone _ Hin). lia. }
    exists G. rewrite Hnf. split_and!; [done|done|].
    intros c Hc. rewrite (lk_move_elem _ _ _ K) by lia.
    rewrite (Hh c Hc), Hopen, !cnt_app. simpl.
    rewrite !length_app. simpl. repeat case_decide; lia.
Qed.

Lemma hist_rel_init n K :
  0 < K → 1 ≤ n →
  hist_rel n K (<[Z.to_nat K := n]> (replicate (Z.to_nat (K + 1)) 0)) [0].
Proof.
  intros HK Hn c Hc.
  rewrite elem_insert by (rewrite ?length_replicate; lia).
  simpl. destruct (decide (c = K)) as [->|Hne].
  - rewrite decide_True by lia. lia.
  - rewrite decide_False by lia.
    unfold elem. rewrite rd_in by (rewrite length_replicate; lia).
    unfold elem, rd. rewrite decide_True by lia.
    rewrite lookup_replicate_2 by lia. simpl. lia.
Qed.

(** [best_fit] and [best_fit_lookup] in lockstep. *)
Lemma bf_lk_run n K min_size objects :
  valid_instance n K objects → 2 * K ≤ uint_max → n ≤ uint_max →
  0 ≤ min_size → Forall (λ o, min_size ≤ o) objects → 1 ≤ n →
  ∀ i, (i ≤ Z.to_nat n)%nat →
  ∃ st bc, bf_run n K min_size objects i = Some st ∧
           lk_run n K objects i = Some bc ∧
           bf_basic n K i st ∧ lk_inv n K objects i bc ∧
           bf_lk_inv n K min_size st bc.
Proof.
  intros Hv HK2 Hnm Hm0 Hmin Hn1 i. pose proof Hv as (Hn & HK & Hall).
  assert (K < uint_max) as HKm by lia.
  induction i as [|i IH]; intros Hi.
  - exists (bf_init n).
    destruct (lk_init_spec n K objects) as (bc0 & H0 & Hinv0); [done|done|lia|].
    exists bc0. unfold lk_run. rewrite H0. split_and!; [done|done| |done|].
    { apply bf_basic_init; lia. }
    exists []. split_and!; [done|constructor|].
    unfold lk_init in H0. rewrite u32_small in H0 by (unfold uint_max in *; lia).
    rewrite wr_in in H0 by (rewrite length_replicate; lia).
    injection H0 as <-. rewrite app_nil_r.
    assert (open_bins (bf_init n) = [0]) as ->.
    { unfold open_bins, bf_init. cbn [bins num_open_bins].
      destruct (Z.to_nat n) as [|k] eqn:E; [lia|]. simpl. by rewrite take_0. }
    by apply hist_rel_init.
  - destruct IH as (st & bc & Hbf & Hlk & Hb & Hl & Hbl); [lia|].
    destruct (valid_lookup n K objects i Hv) as (s & Hs & Hsr); [lia|].
    pose proof (Forall_lookup_1 _ _ _ _ Hmin Hs) as Hms. cbn beta in Hms.
    destruct (lk_body_spec n K objects i bc s)
      as (cur & _ & Hcr & Hcpos & Hczero & Hlb & Hl');
      [done|done|done|done|lia|done|done|].
    destruct (bf_body_spec n K (u32 (K - min_size)) objects i st s)
      as (st' & Hbody & Hlen & Hmove); [done|done|done|lia|done|done|].
    exists st', (lk_move bc cur s).
    rewrite bf_run_S, Hbf, lk_run_S, Hlk. bind_step.
    split_and!; [done|done| |done|].
    + apply (bf_basic_step n K (u32 (K - min_size)) s i st st');
        [done|lia|done|done|done].
    + rewrite u32_small in Hmove by lia.
      apply (bf_lk_step n K min_size s i st st' bc cur);
        [lia|done|done| |done|done|done|done|done].
      by destruct Hl as (? & _).
Qed.

(** On a valid instance the count of [best_fit_lookup] is the number of
    bins of [best_fit] that hold an item. *)
Lemma lookup_le_array n K min_size objects :
  valid_instance n K objects → 2 * K ≤ uint_max → n ≤ uint_max →
  0 ≤ min_size → Forall (λ o, min_size ≤ o) objects →
  ∃ lookup_bins array_bins pos,
    best_fit_lookup n K objects = Some lookup_bins ∧
    best_fit n K min_size objects = Some (array_bins, pos) ∧
    lookup_bins ≤ array_bins.
Proof.
  intros Hv HK2 Hnm Hm0 Hmin. pose proof Hv as (Hn & HK & Hall).
  assert (K < uint_max) as HKm by lia.
  destruct (best_fit_lookup_spec n K objects Hv HKm Hnm)
    as (bc & Hlk & Hl & Hres).
  destruct (decide (n = 0)) as [->|Hn0].
  - destruct objects; [|simpl in Hn; lia].
    destruct Hl as (Hlen & Hnn & Hsum & HbK & Hw).
    pose proof (elem_nonneg bc K Hnn).
    pose proof (elem_le_zsum bc K Hnn ltac:(lia)).
    exists (0 - elem bc K), 1, []. split_and!; [done|done|lia].
  - destruct (bf_lk_run n K min_size objects Hv HK2 Hnm Hm0 Hmin ltac:(lia)
                (Z.to_nat n)) as (st & bc' & Hbf & Hlk' & Hb & _ & Hbl); [done|].
    rewrite Hlk in Hlk'. injection Hlk' as <-.
    exists (n - elem bc K), (bf_count st), (positions st).
    unfold best_fit. rewrite Hbf. split_and!; [done|done|].
    pose proof (open_bins_length _ _ _ _ Hb) as Hol.
    destruct Hb as (Hlb & Hlp & Ho & Hf & Hle & Hallb & Hused).
    destruct Hbl as (G & HGl & HG & Hh).
    unfold bf_count. rewrite u32_small by lia.
    rewrite (Hh K) by lia. rewrite decide_True by done.
    rewrite length_app. replace (K - K) with 0 by lia.
    pose proof (cnt_nonneg 0 (open_bins st ++ G)).
    assert (cnt 0 (open_bins st ++ G) ≤ Z.of_nat (length (open_bins st ++ G))).
    { generalize (open_bins st ++ G). intros l.
      induction l; simpl; [lia|]. case_decide; lia. }
    rewrite length_app in *. lia.
Qed.

(** The bound on [min_size] is needed: with [min_size = 4] above some item
    sizes, [best_fit] retires bins that the items of size 1 would still
    fit, and on this instance it happens to end with one bin fewer than
    [best_fit_lookup]. *)
Lemma early_retirement_instance :
  best_fit 10 12 4 [11; 1; 1; 11; 2; 3; 9; 1; 3; 5]
    = Some (4, [0; 0; 0; 1; 0; 0; 2; 1; 1; 0]) ∧
  best_fit_lookup 10 12 [11; 1; 1; 11; 2; 3; 9; 1; 3; 5] = Some 5.
Proof. split; by vm_compute. Qed.

(** ** The heap order of [simple_heap] *)

Lemma half_spec k : 2 * (k / 2) ≤ k ≤ 2 * (k / 2) + 1.
Proof. Z.to_euclidean_division_equations. lia. Qed.

Lemma half_double j : 2 * j / 2 = j.
Proof. Z.to_euclidean_division_equations. lia. Qed.

Lemma half_double_1 j : (2 * j + 1) / 2 = j.
Proof. Z.to_euclidean_division_equations. lia. Qed.

Lemma max_heap_parent e num : max_heap e num ↔ parent_order e num.
Proof.
  split.
  - intros Hh k Hk. pose proof (half_spec k) as Hk2.
    destruct (Hh (k / 2)) as [Hl Hr]; [lia|].
    destruct (decide (k = 2 * (k / 2))) as [Heq|Hne].
    + rewrite Heq at 1. apply Hl. lia.
    + replace k with (2 * (k / 2) + 1) at 1 by lia. apply Hr. lia.
  - intros Hp j Hj. split; intros Hc.
    + specialize (Hp (2 * j)). rewrite half_double in Hp. apply Hp. lia.
    + specialize (Hp (2 * j + 1)). rewrite half_double_1 in Hp. apply Hp. lia.
Qed.

Lemma elem_swap e i j k :
  0 ≤ i < Z.of_nat (length e) → 0 ≤ j < Z.of_nat (length e) → 0 ≤ k →
  elem (swap e i j) k =
  if decide (k = i) then elem e j
  else if decide (k = j) then elem e i else elem e k.
Proof.
  intros Hi Hj Hk. unfold swap.
  rewrite elem_insert by (rewrite ?length_insert; lia).
  rewrite elem_insert by lia. done.
Qed.

Lemma length_swap e i j : length (swap e i j) = length e.
Proof. unfold swap. by rewrite !length_insert. Qed.

Lemma sift_up_length fuel e j : length (sift_up fuel e j) = length e.
Proof.
  revert e j. induction fuel as [|f IH]; intros e j; simpl; [done|].
  case_decide; [|done]. by rewrite IH, length_swap.
Qed.

Lemma sift_down_length fuel e num j :
  length (sift_down fuel e num j) = length e.
Proof.
  revert e j. induction fuel as [|f IH]; intros e j; simpl; [done|].
  repeat case_decide; rewrite ?IH, ?length_swap; done.
Qed.

Lemma sift_up_heap fuel e num j :
  up_ok e num j → 1 ≤ j ≤ num → num < Z.of_nat (length e) →
  j ≤ Z.of_nat fuel → parent_order (sift_up fuel e j) num.
Proof.
  revert e j. induction fuel as [|f IH]; intros e j Hok Hj Hlen Hf; [lia|].
  simpl. destruct Hok as [Hk1 Hk2].
  pose proof (half_spec j) as Hj2.
  destruct (decide (1 < j ∧ elem e (j / 2) < elem e j)) as [[Hj1 Hlt]|Hno].
  - apply IH; [|lia|by rewrite length_swap|lia].
    split.
    + intros k Hk Hne. pose proof (half_spec k).
      rewrite !(elem_swap e j (j / 2)) by lia.
      destruct (decide (k = j)) as [->|Hkj].
      { rewrite decide_False by lia. rewrite decide_True by done. lia. }
      rewrite decide_False by done.
      specialize (Hk1 k Hk Hkj). specialize (Hk2 k Hk).
      destruct (decide (k / 2 = j)) as [Hkp|Hkp]; [lia|].
      destruct (decide (k / 2 = j / 2)) as [Hkq|Hkq]; [|done].
      rewrite Hkq in Hk1. lia.
    + intros k Hk Hkp Hp2. pose proof (half_spec k).
      pose proof (half_spec (j / 2)).
      rewrite !(elem_swap e j (j / 2)) by lia.
      pose proof (Hk1 (j / 2) ltac:(lia) ltac:(lia)).
      destruct (decide (k = j)) as [->|Hkj].
      { rewrite decide_False by lia. rewrite decide_False by lia. done. }
      specialize (Hk1 k Hk Hkj). rewrite Hkp in Hk1.
      repeat case_decide; lia.
  - intros k Hk. destruct (decide (k = j)) as [->|Hkj]; [lia|].
    by apply Hk1.
Qed.

Lemma sift_down_heap fuel e num j :
  down_ok e num j → 1 ≤ j → num < Z.of_nat (length e) →
  num < j + Z.of_nat fuel → parent_order (sift_down fuel e num j) num.
Proof.
  revert e j. induction fuel as [|f IH]; intros e j [Hk1 Hk2] Hj Hlen Hf.
  { simpl. intros k Hk. pose proof (half_spec k).
    apply Hk1; [done|lia]. }
  simpl. destruct (decide (2 * j ≤ num)) as [Hc|Hnc].
  2:{ intros k Hk. pose proof (half_spec k). apply Hk1; [done|lia]. }
  set (c := if decide (2 * j + 1 ≤ num ∧ elem e (2 * j) < elem e (2 * j + 1))
            then 2 * j + 1 else 2 * j).
  assert (c / 2 = j ∧ 2 * j ≤ c ≤ num ∧
          ∀ k, 2 ≤ k ≤ num → k / 2 = j → elem e k ≤ elem e c)
    as (Hcp & Hcr & Hcmax).
  { unfold c. destruct (decide _) as [[Hr Hlt]|Hno].
    - split_and!; [apply half_double_1|lia|lia|].
      intros k Hk Hkp. pose proof (half_spec k).
      destruct (decide (k = 2 * j)) as [->|]; [lia|].
      replace k with (2 * j + 1) by lia. done.
    - split_and!; [apply half_double|lia|lia|].
      intros k Hk Hkp. pose proof (half_spec k).
      destruct (decide (k = 2 * j)) as [->|]; [done|].
      replace k with (2 * j + 1) in * by lia. lia. }
  clearbody c.
  destruct (decide (elem e j < elem e c)) as [Hlt|Hge].
  - apply IH; [|lia|by rewrite length_swap|lia].
    split.
    + intros k Hk Hne. pose proof (half_spec k).
      rewrite !(elem_swap e j c) by lia.
      destruct (decide (k = j)) as [->|Hkj].
      { rewrite decide_False by lia. rewrite decide_False by lia.
        apply Hk2; [lia|done|lia]. }
      destruct (decide (k = c)) as [->|Hkc].
      { rewrite decide_True by done. lia. }
      destruct (decide (k / 2 = j)) as [Hkp|Hkp]; [by apply Hcmax|].
      rewrite decide_False by done. by apply Hk1.
    + intros k Hk Hkp Hc2. pose proof (half_spec k).
      rewrite !(elem_swap e j c) by lia.
      rewrite (decide_False (P := k = j)) by lia.
      rewrite (decide_False (P := k = c)) by lia.
      rewrite decide_True by done.
      rewrite <- Hkp. apply Hk1; [done|lia].
  - intros k Hk. destruct (decide (k / 2 = j)) as [Hkp|Hkp].
    + specialize (Hcmax k Hk Hkp). rewrite Hkp. lia.
    + by apply Hk1.
Qed.

Lemma zsum_swap e i j :
  0 ≤ i < Z.of_nat (length e) → 0 ≤ j < Z.of_nat (length e) →
  zsum (swap e i j) = zsum e.
Proof.
  intros Hi Hj. unfold swap.
  rewrite (zsum_insert _ _ _ (elem (<[Z.to_nat j := elem e i]> e) i))
    by (apply lookup_elem; rewrite length_insert; lia).
  rewrite (zsum_insert _ _ _ (elem e j)) by (by apply lookup_elem).
  rewrite elem_insert by lia. case_decide; subst; lia.
Qed.

Lemma Forall_elem (P : Z → Prop) e i :
  Forall P e → 0 ≤ i < Z.of_nat (length e) → P (elem e i).
Proof. intros He Hi. apply (Forall_lookup_1 _ _ _ _ He (lookup_elem e i Hi)). Qed.

Lemma Forall_swap (P : Z → Prop) e i j :
  0 ≤ i < Z.of_nat (length e) → 0 ≤ j < Z.of_nat (length e) →
  Forall P e → Forall P (swap e i j).
Proof.
  intros Hi Hj He. unfold swap.
  apply Forall_insert; [apply Forall_insert; [done|]|]; by apply Forall_elem.
Qed.

(** [sift_up] and [sift_down] permute the loads at [1 .. num]. *)
Lemma sift_up_keeps (P : Z → Prop) fuel e j :
  0 ≤ j < Z.of_nat (length e) → Forall P e →
  zsum (sift_up fuel e j) = zsum e ∧ Forall P (sift_up fuel e j) ∧
  ∀ k, 0 ≤ k → ¬ (1 ≤ k ≤ j) → elem (sift_up fuel e j) k = elem e k.
Proof.
  revert e j. induction fuel as [|f IH]; intros e j Hj He; simpl; [done|].
  case_decide as Hc; [|done]. pose proof (half_spec j).
  destruct (IH (swap e j (j / 2)) (j / 2)) as (Hs & HP & Hout);
    [rewrite length_swap; lia|apply Forall_swap; [lia|lia|done]|].
  split_and!; [|done|].
  - rewrite Hs. apply zsum_swap; lia.
  - intros k Hk0 Hk. rewrite Hout by lia. rewrite elem_swap by lia.
    rewrite !decide_False by lia. done.
Qed.

Lemma sift_down_keeps (P : Z → Prop) fuel e num j :
  1 ≤ j → num < Z.of_nat (length e) → Forall P e →
  zsum (sift_down fuel e num j) = zsum e ∧
  Forall P (sift_down fuel e num j) ∧
  ∀ k, 0 ≤ k → ¬ (j ≤ k ≤ num) → elem (sift_down fuel e num j) k = elem e k.
Proof.
  revert e j. induction fuel as [|f IH]; intros e j Hj Hlen He; simpl; [done|].
  case_decide as Hc; [|done].
  set (c := if decide (2 * j + 1 ≤ num ∧ elem e (2 * j) < elem e (2 * j + 1))
            then 2 * j + 1 else 2 * j).
  assert (2 * j ≤ c ≤ num) as Hcr by (unfold c; case_decide; lia).
  clearbody c. case_decide as Hlt; [|done].
  destruct (IH (swap e j c) c) as (Hs & HP & Hout);
    [lia|by rewrite length_swap|apply Forall_swap; [lia|lia|done]|].
  split_and!; [|done|].
  - rewrite Hs. apply zsum_swap; lia.
  - intros k Hk0 Hk. rewrite Hout by lia. rewrite elem_swap by lia.
    rewrite !decide_False by lia. done.
Qed.

Lemma push_spec (P : Z → Prop) h v :
  parent_order (elements h) (num_elements h) → 0 ≤ num_elements h →
  num_elements h + 1 < Z.of_nat (length (elements h)) →
  Forall P (elements h) → P v →
  ∃ h', push h v = Some h' ∧
        num_elements h' = num_elements h + 1 ∧
        length (elements h') = length (elements h) ∧
        parent_order (elements h') (num_elements h') ∧
        zsum (elements h') =
          zsum (elements h) - elem (elements h) (num_elements h + 1) + v ∧
        Forall P (elements h') ∧
        ∀ k, 0 ≤ k → ¬ (1 ≤ k ≤ num_elements h + 1) →
             elem (elements h') k = elem (elements h) k.
Proof.
  intros Hh Hnum Hlen HP Hv. destruct h as [e num]. cbn [elements num_elements] in *.
  unfold push. cbn [elements num_elements]. rewrite wr_in by lia.
  bind_step. eexists. split; [done|]. cbn [elements num_elements].
  set (e1 := <[Z.to_nat (num + 1) := v]> e).
  assert (length e1 = length e) as Hl1 by (unfold e1; by rewrite length_insert).
  destruct (sift_up_keeps P (Z.to_nat (num + 1)) e1 (num + 1))
    as (Hs & HP' & Hout); [lia|by apply Forall_insert|].
  split_and!; [done|by rewrite sift_up_length| |..|done|].
  - apply sift_up_heap; [|lia|lia|lia]. split.
    + intros k Hk Hne. pose proof (half_spec k). unfold e1.
      rewrite !elem_insert_ne by lia. apply Hh. lia.
    + intros k Hk Hkp. pose proof (half_spec k). lia.
  - rewrite Hs. unfold e1.
    rewrite (zsum_insert _ _ _ (elem e (num + 1))) by (apply lookup_elem; lia).
    done.
  - intros k Hk0 Hk. rewrite Hout by lia. unfold e1.
    by rewrite elem_insert_ne by lia.
Qed.

Lemma reheap_down_spec (P : Z → Prop) e num j v :
  parent_order e num → 1 ≤ j ≤ num → num < Z.of_nat (length e) →
  Forall P e → P v →
  let h' := reheap_down (SimpleHeap (<[Z.to_nat j := v]> e) num) j in
  num_elements h' = num ∧
  length (elements h') = length e ∧
  parent_order (elements h') num ∧
  zsum (elements h') = zsum e - elem e j + v ∧
  Forall P (elements h') ∧
  ∀ k, 0 ≤ k → ¬ (1 ≤ k ≤ num) → elem (elements h') k = elem e k.
Proof.
  intros Hh Hj Hlen HP Hv. unfold reheap_down. cbn [elements num_elements].
  set (e1 := <[Z.to_nat j := v]> e).
  assert (length e1 = length e) as Hl1 by (unfold e1; by rewrite length_insert).
  assert (Forall P e1) as HP1 by (by apply Forall_insert).
  assert (zsum e1 = zsum e - elem e j + v) as Hs1.
  { unfold e1. apply zsum_insert, lookup_elem. lia. }
  assert (∀ k, 0 ≤ k → elem e1 k = if decide (k = j) then v else elem e k) as He1.
  { intros k Hk. unfold e1. apply elem_insert; lia. }
  pose proof (half_spec j) as Hj2.
  destruct (decide (1 < j ∧ elem e1 (j / 2) < elem e1 j)) as [[Hj1 Hlt]|Hno];
    cbn [elements num_elements].
  - destruct (sift_up_keeps P (Z.to_nat j) e1 j) as (Hs & HP' & Hout);
      [lia|done|].
    split_and!; [done|by rewrite sift_up_length| |by rewrite Hs|done|].
    + rewrite !He1 in Hlt by lia.
      rewrite (decide_True (P := j = j)) in Hlt by done.
      rewrite (decide_False (P := j / 2 = j)) in Hlt by lia.
      apply sift_up_heap; [|lia|lia|lia]. split.
      * intros k Hk Hne. pose proof (half_spec k). rewrite !He1 by lia.
        rewrite (decide_False (P := k = j)) by done.
        pose proof (Hh k Hk) as Hhk. pose proof (Hh j ltac:(lia)).
        destruct (decide (k / 2 = j)) as [Hkp|]; [|done].
        rewrite Hkp in Hhk. lia.
      * intros k Hk Hkp _. pose proof (half_spec k). rewrite !He1 by lia.
        rewrite !decide_False by lia.
        pose proof (Hh k Hk) as Hhk. pose proof (Hh j ltac:(lia)).
        rewrite Hkp in Hhk. lia.
    + intros k Hk0 Hk. rewrite Hout by lia. rewrite He1 by lia.
      by rewrite decide_False by lia.
  - destruct (sift_down_keeps P (Z.to_nat num) e1 num j) as (Hs & HP' & Hout);
      [lia|lia|done|].
    split_and!; [done|by rewrite sift_down_length| |by rewrite Hs|done|].
    + apply sift_down_heap; [|lia|lia|lia]. split.
      * intros k Hk Hne. pose proof (half_spec k). rewrite !He1 by lia.
        rewrite (decide_False (P := k / 2 = j)) by done.
        destruct (decide (k = j)) as [->|]; [|by apply Hh].
        rewrite !He1 in Hno by lia.
        rewrite (decide_True (P := j = j)) in Hno by done.
        rewrite (decide_False (P := j / 2 = j)) in Hno by lia. lia.
      * intros k Hk Hkp Hj1. pose proof (half_spec k). rewrite !He1 by lia.
        rewrite !decide_False by lia.
        pose proof (Hh k Hk) as Hhk. pose proof (Hh j ltac:(lia)).
        rewrite Hkp in Hhk. lia.
    + intros k Hk0 Hk. rewrite Hout by lia. rewrite He1 by lia.
      by rewrite decide_False by lia.
Qed.

(** The root of a max-heap carries the largest load. *)
Lemma root_max e num k :
  parent_order e num → 1 ≤ k ≤ num → elem e k ≤ elem e 1.
Proof.
  intros Hh. assert (∀ (m : nat) k, k ≤ Z.of_nat m → 1 ≤ k ≤ num →
                                   elem e k ≤ elem e 1) as Hind.
  { induction m as [|m IH]; intros k' Hm Hk'; [lia|].
    destruct (decide (k' = 1)) as [->|Hne]; [done|].
    pose proof (half_spec k'). specialize (Hh k' ltac:(lia)).
    specialize (IH (k' / 2) ltac:(lia) ltac:(lia)). lia. }
  intros Hk. apply (Hind (Z.to_nat k)); lia.
Qed.

Lemma zsum_bound l (a m : nat) M :
  0 ≤ M →
  (∀ k x, l !! k = Some x →
          ((a ≤ k < a + m)%nat → x ≤ M) ∧ (¬ (a ≤ k < a + m)%nat → x ≤ 0)) →
  zsum l ≤ Z.of_nat m * M.
Proof.
  intros HM. revert a m. induction l as [|x l IH]; intros a m Hl; simpl; [lia|].
  destruct (Hl O x eq_refl) as [Hin Hout].
  destruct a as [|a].
  - destruct m as [|m].
    + assert (zsum l ≤ Z.of_nat 0 * M) as IH'.
      { apply (IH O O). intros k y Hk. destruct (Hl (S k) y Hk) as [_ H2].
        split; [lia|]. intros _. apply H2. lia. }
      lia.
    + assert (zsum l ≤ Z.of_nat m * M) as IH'.
      { apply (IH O m). intros k y Hk. destruct (Hl (S k) y Hk) as [H1 H2].
        split; intros; [apply H1|apply H2]; lia. }
      lia.
  - assert (zsum l ≤ Z.of_nat m * M) as IH'.
    { apply (IH a m). intros k y Hk. destruct (Hl (S k) y Hk) as [H1 H2].
      split; intros; [apply H1|apply H2]; lia. }
    lia.
Qed.

(** The total load of a max-heap is at most [num] times the root's. *)
Lemma heap_sum_bound e num :
  parent_order e num → 0 ≤ num →
  Forall (λ b, 0 ≤ b) e →
  (∀ k, 0 ≤ k → ¬ (1 ≤ k ≤ num) → elem e k = 0) →
  zsum e ≤ num * elem e 1.
Proof.
  intros Hh Hnum Hnn Hout.
  rewrite <- (Z2Nat.id num) at 1 by done.
  apply (zsum_bound e 1 (Z.to_nat num)); [by apply elem_nonneg|].
  intros k x Hk.
  assert (elem e (Z.of_nat k) = x) as <- by (apply rd_elem; by rewrite rd_nat).
  split; intros Hr.
  - apply (root_max e num); [done|lia].
  - rewrite Hout; lia.
Qed.

(** ** The breadth-first search of [best_fit_heap] *)

Lemma qsorted_app lo q1 hi q2 :
  qsorted lo q1 → Forall (λ x, x ≤ hi) q1 → lo ≤ hi → qsorted hi q2 →
  qsorted lo (q1 ++ q2).
Proof.
  revert lo. induction q1 as [|x q1 IH]; intros lo H1 HF Hlo H2; simpl.
  - destruct q2 as [|y q2]; [done|]. simpl in *. split; [lia|tauto].
  - simpl in H1. destruct H1 as [Hx H1]. inversion HF; subst.
    split; [done|]. apply IH; [done|done|lia|done].
Qed.

Lemma qinv_next nb j rest ext :
  qinv nb (j :: rest) → qsorted (2 * j - 1) ext →
  Forall (λ c, c ≤ 2 * j + 1 ∧ c ≤ nb) ext →
  qinv nb (rest ++ ext) ∧
  match rest ++ ext with [] => True | h :: _ => j < h end.
Proof.
  intros (Hj & Hs & HF) Hes HeF. destruct rest as [|h r]; simpl.
  - destruct ext as [|c ext']; [done|]. simpl in Hes. destruct Hes as [Hc Hes].
    inversion HeF as [|? ? [Hc1 Hc2] HeF']; subst.
    split; [|lia]. split_and!; [lia|lia|done|].
    eapply Forall_impl; [exact HeF'|]. cbn beta. intros x [? ?]. lia.
  - simpl in Hs. destruct Hs as [Hh Hs].
    inversion HF as [|? ? [Hh1 Hh2] HF']; subst.
    split; [|lia]. split_and!; [lia|lia| |].
    + apply (qsorted_app h r (2 * j - 1) ext); [done| |lia|done].
      eapply Forall_impl; [exact HF'|]. cbn beta. intros x [? ?]. lia.
    + apply Forall_app. split.
      * eapply Forall_impl; [exact HF'|]. cbn beta. intros x [? ?]. lia.
      * eapply Forall_impl; [exact HeF|]. cbn beta. intros x [? ?]. lia.
Qed.

(** The search ends within [nb + 1] rounds, whatever the loads are; [R]
    is any property of the pair [(best_bin, best_cap)] kept by an update. *)
Lemma bfs_gen (R : Z * Z → Prop) K s e nb fuel q best :
  nb < Z.of_nat (length e) → 2 * nb + 1 ≤ uint_max →
  (∀ j, 1 ≤ j ≤ nb → u32 (elem e j + s) ≤ K → R (j, u32 (elem e j + s))) →
  qinv nb q →
  match q with [] => True | j :: _ => nb < j + Z.of_nat fuel end →
  R best →
  ∃ best', bfs fuel K s e nb q best = Some best' ∧ R best'.
Proof.
  intros Hlen Hnb HR. revert q best.
  induction fuel as [|f IH]; intros q best Hq Hf Hbest.
  { destruct q as [|j rest]; [by exists best|]. destruct Hq as (Hj & _). lia. }
  destruct q as [|j rest]; [by exists best|].
  pose proof Hq as (Hj & Hs & HF).
  cbn [bfs]. rewrite rd_in by lia. bind_step.
  destruct (decide (u32 (elem e j + s) ≤ K)) as [Hfit|Hnofit].
  - rewrite !(u32_small (2 * j)), !(u32_small (2 * j + 1)) by lia.
    set (ext := (if decide (2 * j ≤ nb) then [2 * j] else []) ++
                (if decide (2 * j + 1 ≤ nb) then [2 * j + 1] else [])).
    assert ((if decide (2 * j + 1 ≤ nb)
             then (if decide (2 * j ≤ nb) then rest ++ [2 * j] else rest)
                    ++ [2 * j + 1]
             else if decide (2 * j ≤ nb) then rest ++ [2 * j] else rest)
            = rest ++ ext) as ->.
    { unfold ext. repeat case_decide; simpl; rewrite <- ?app_assoc, ?app_nil_r;
        done. }
    destruct (qinv_next nb j rest ext Hq) as [Hq' Hhd].
    { unfold ext. repeat case_decide; simpl; lia. }
    { unfold ext. repeat case_decide; simpl; repeat constructor; lia. }
    apply IH; [done| |].
    + destruct (rest ++ ext); [done|lia].
    + destruct (decide (best.2 < u32 (elem e j + s))); [|done].
      by apply HR.
  - destruct (qinv_next nb j rest [] Hq) as [Hq' Hhd]; [done|constructor|].
    rewrite app_nil_r in *. apply IH; [done| |done].
    destruct rest; [done|lia].
Qed.

Lemma bfs_spec n K s e nb fuel q best :
  0 ≤ s → nb < Z.of_nat (length e) → 2 * nb + 1 ≤ uint_max →
  (∀ k, 1 ≤ k ≤ nb → 0 ≤ elem e k ∧ elem e k + s ≤ uint_max) →
  qinv nb q →
  match q with [] => True | j :: _ => nb < j + Z.of_nat fuel end →
  bfs_res n K s e nb best →
  ∃ best', bfs fuel K s e nb q best = Some best' ∧ bfs_res n K s e nb best'.
Proof.
  intros Hs0 Hlen Hnb He. apply bfs_gen; [done|done|].
  intros j Hj. destruct (He j Hj) as [Hb0 Hbm]. rewrite u32_small by lia.
  intros Hfit. right. done.
Qed.

(** ** The rounds of [best_fit_heap] *)

Lemma hp_find_spec n K objects (i : nat) st s :
  2 * K ≤ uint_max → 2 * n + 1 ≤ uint_max →
  hp_inv n K objects i st → Z.of_nat i < n → 0 < s ≤ K →
  ∃ best, hp_find n K s st = Some best ∧
          (best = (n, 0) ∨
           (1 ≤ best.1 ≤ num_bins st ∧
            elem (elements (hp_bins st)) best.1 + s ≤ K ∧
            num_bins st ≠ 0 ∧ elem (elements (hp_bins st)) 1 + s ≤ K)).
Proof.
  intros HK2 Hn2 (Hnum & Hnb & Hlen & Hheap & Hsum & Hall & Hout) Hi Hs.
  unfold hp_find. destruct (decide (num_bins st ≠ 0)) as [Hne|]; [|eauto].
  rewrite rd_in by lia. bind_step.
  pose proof (Forall_elem _ _ 1 Hall ltac:(lia)) as Hroot. cbn beta in Hroot.
  rewrite u32_small by lia.
  destruct (decide (elem (elements (hp_bins st)) 1 + s ≤ K)) as [Hfit|]; [|eauto].
  destruct (bfs_spec n K s (elements (hp_bins st)) (num_bins st)
              (S (Z.to_nat (num_bins st))) [1] (n, 0))
    as (best & Hbfs & Hres); [lia|lia|lia| | |lia|by left|].
  { intros k Hk. pose proof (Forall_elem _ _ k Hall ltac:(lia)) as Hk'.
    cbn beta in Hk'. lia. }
  { simpl. split_and!; [lia|lia|done|constructor]. }
  exists best. split; [done|]. destruct Hres as [->|[? ?]]; [by left|].
  right. done.
Qed.

Lemma hp_body_spec n K objects (i : nat) st s :
  2 * K ≤ uint_max → 2 * n + 1 ≤ uint_max →
  hp_inv n K objects i st → Z.of_nat i < n →
  objects !! i = Some s → 0 < s ≤ K →
  ∃ st', hp_body n K objects (Z.of_nat i) st = Some st' ∧
         hp_inv n K objects (S i) st' ∧
         ((num_bins st' = num_bins st ∧ num_bins st ≠ 0 ∧
           elem (elements (hp_bins st)) 1 + s ≤ K) ∨
          num_bins st' = num_bins st + 1).
Proof.
  intros HK2 Hn2 Hinv Hi Hobj Hs.
  destruct (hp_find_spec n K objects i st s) as (best & Hfind & Hres);
    [done..|].
  destruct Hinv as (Hnum & Hnb & Hlen & Hheap & Hsum & Hall & Hout).
  apply max_heap_parent in Hheap.
  unfold hp_body. rewrite rd_nat, Hobj. bind_step.
  rewrite Hfind. bind_step. unfold hp_place.
  assert (items_sum objects (S i) = items_sum objects i + s) as HT
    by (unfold items_sum; by rewrite (zsum_take_S _ _ _ Hobj)).
  destruct Hres as [->|(Hj & Hjfit & Hne & Hroot)]; cbn [fst].
  - rewrite decide_False by lia.
    destruct (push_spec (λ b, 0 ≤ b ≤ K) (hp_bins st) s)
      as (h' & Hpush & Hnum' & Hlen' & Hheap' & Hsum' & Hall' & Hout');
      [by rewrite Hnum|lia|lia|done|lia|].
    rewrite Hpush. bind_step. rewrite u32_small by lia.
    eexists. split; [done|]. split; [|by right].
    unfold hp_inv. cbn [hp_bins num_bins]. rewrite Hnum' in Hheap'.
    rewrite Hnum in *.
    split_and!; [done|lia|lia|lia|by apply max_heap_parent| |done|].
    + rewrite Hsum', Hout by lia. lia.
    + intros k Hk0 Hk. rewrite Hout' by lia. apply Hout; lia.
  - destruct best as [j bc]. cbn [fst] in *.
    rewrite decide_True by lia. rewrite rd_in by lia. bind_step.
    pose proof (Forall_elem _ _ j Hall ltac:(lia)) as Hb. cbn beta in Hb.
    rewrite u32_small by lia. rewrite wr_in by lia. bind_step.
    destruct (reheap_down_spec (λ b, 0 ≤ b ≤ K) (elements (hp_bins st))
                (num_bins st) j (elem (elements (hp_bins st)) j + s))
      as (Hnum' & Hlen' & Hheap' & Hsum' & Hall' & Hout');
      [done|lia|lia|done|lia|].
    rewrite Hnum. eexists. split; [done|]. split; [|by left].
    unfold hp_inv. cbn [hp_bins num_bins].
    split_and!; [done|lia|lia|lia|by apply max_heap_parent| |done|].
    + rewrite Hsum'. lia.
    + intros k Hk0 Hk. rewrite Hout' by lia. apply Hout; lia.
Qed.

Lemma hp_inv_init n K objects : 0 ≤ n → 0 ≤ K → hp_inv n K objects 0 (hp_init n).
Proof.
  intros Hn HK. unfold hp_inv, hp_init, heap_new. cbn [hp_bins num_bins elements num_elements].
  assert (∀ k, elem (replicate (Z.to_nat (n + 1)) 0) k = 0) as Hz.
  { intros k. unfold elem, rd. case_decide; [|done].
    destruct (_ !! _) as [x|] eqn:E; [|done].
    apply lookup_replicate in E as [-> _]. done. }
  split_and!; [done|lia|lia| | | | |].
  - rewrite length_replicate. lia.
  - intros j Hj. rewrite !Hz. lia.
  - by rewrite zsum_replicate.
  - apply Forall_replicate. lia.
  - intros. apply Hz.
Qed.

Lemma hp_run_S n K objects i :
  hp_run n K objects (S i) =
  st ← hp_run n K objects i; hp_body n K objects (Z.of_nat i) st.
Proof. unfold hp_run. by rewrite for_loop_snoc, Z.add_0_l. Qed.

Lemma hp_run_inv n K objects :
  valid_instance n K objects → 2 * K ≤ uint_max → 2 * n + 1 ≤ uint_max →
  ∀ i, (i ≤ Z.to_nat n)%nat →
  ∃ st, hp_run n K objects i = Some st ∧ hp_inv n K objects i st.
Proof.
  intros Hv HK2 Hn2 i Hi. pose proof Hv as (Hn & HK & Hall).
  apply (for_loop_inv _ (hp_inv n K objects) (Z.to_nat n)); [| |done].
  { apply hp_inv_init; lia. }
  intros k st Hk Hinv.
  destruct (valid_lookup n K objects k Hv) as (s & Hs & Hsr); [lia|].
  destruct (hp_body_spec n K objects k st s) as (st' & Hb & Hinv' & _);
    [done|done|done|lia|done|done|].
  eauto.
Qed.

(** ** [best_fit_lookup] against [best_fit_heap] *)

Lemma elem_cons_0 x l : elem (x :: l) 0 = x.
Proof. done. Qed.

Lemma elem_cons_S x l c : 0 ≤ c → elem (x :: l) (c + 1) = elem l c.
Proof.
  intros Hc. unfold elem, rd. rewrite !decide_True by lia.
  replace (Z.to_nat (c + 1)) with (S (Z.to_nat c)) by lia. done.
Qed.

(** If every entry of weight below [m], the last one apart, is empty, the
    weighted sum is at least [m] for each unit of count. *)
Lemma wload_ge l w m :
  Forall (λ c, 0 ≤ c) l → Z.of_nat (length l) = w + 1 → 0 ≤ m →
  (∀ c, 0 ≤ c < w → w - c < m → elem l c = 0) →
  m * (zsum l - elem l w) ≤ wload w l.
Proof.
  intros Hnn. revert w. induction Hnn as [|x l Hx Hnn IH]; intros w Hlen Hm Hz.
  - simpl in *. unfold elem, rd. rewrite decide_False by lia. simpl. lia.
  - simpl in Hlen. cbn [wload zsum foldr].
    destruct (decide (w = 0)) as [->|Hw].
    + destruct l; [|simpl in Hlen; lia]. rewrite elem_cons_0. simpl. lia.
    + replace w with ((w - 1) + 1) at 1 by lia. rewrite elem_cons_S by lia.
      specialize (IH (w - 1)).
      assert (m * (zsum l - elem l (w - 1)) ≤ wload (w - 1) l) as IH'.
      { apply IH; [lia|done|]. intros c Hc Hcm.
        rewrite <- (elem_cons_S x) by lia. apply Hz; lia. }
      assert (m * x ≤ x * w).
      { destruct (decide (w < m)) as [Hlt|Hge].
        - pose proof (Hz 0 ltac:(lia) ltac:(lia)) as H0.
          rewrite elem_cons_0 in H0. subst x. lia.
        - nia. }
      fold (zsum l). lia.
Qed.

(** [best_fit_lookup] and [best_fit_heap] in lockstep: the histogram never
    holds more used bins than the heap. *)
Lemma hp_lk_run n K objects :
  valid_instance n K objects → 2 * K ≤ uint_max → 2 * n + 1 ≤ uint_max →
  ∀ i, (i ≤ Z.to_nat n)%nat →
  ∃ st bc, hp_run n K objects i = Some st ∧
           lk_run n K objects i = Some bc ∧
           hp_inv n K objects i st ∧ lk_inv n K objects i bc ∧
           n - elem bc K ≤ num_bins st.
Proof.
  intros Hv HK2 Hn2 i. pose proof Hv as (Hn & HK & Hall).
  assert (K < uint_max) as HKm by lia.
  assert (n ≤ uint_max) as Hnm by lia.
  induction i as [|i IH]; intros Hi.
  - exists (hp_init n).
    destruct (lk_run_inv n K objects Hv HKm Hnm 0) as (bc & Hlk & Hl); [lia|].
    exists bc. split_and!; [done|done|apply hp_inv_init; lia|done|].
    destruct Hl as (_ & _ & _ & HbK & _). simpl in *. lia.
  - destruct IH as (st & bc & Hhp & Hlk & Hh & Hl & Hle); [lia|].
    destruct (valid_lookup n K objects i Hv) as (s & Hs & Hsr); [lia|].
    destruct (lk_body_spec n K objects i bc s)
      as (cur & _ & Hcr & Hcpos & Hczero & Hlb & Hl');
      [done|done|done|done|lia|done|done|].
    destruct (hp_body_spec n K objects i st s) as (st' & Hb & Hh' & Hcases);
      [done|done|done|lia|done|done|].
    exists st', (lk_move bc cur s).
    rewrite hp_run_S, Hhp, lk_run_S, Hlk. bind_step.
    split_and!; [done|done|done|done|].
    destruct Hl as (Hlen & Hnn & Hsum & HbK & Hw).
    rewrite (lk_move_elem _ _ _ K) by lia.
    rewrite (decide_False (P := K = cur - s)) by lia.
    destruct Hcases as [(Hsame & Hne & Hroot)| ->]; [|case_decide; lia].
    rewrite Hsame. destruct (decide (K = cur)) as [<-|]; [|lia].
    destruct Hh as (Hnum & Hnb & Hlene & Hheap & Hsume & Halle & Hout).
    apply max_heap_parent in Hheap.
    pose proof (wload_ge bc K (K - s + 1) Hnn Hlen ltac:(lia)) as Hlow.
    assert (∀ c, 0 ≤ c < K → K - c < K - s + 1 → elem bc c = 0) as Hz
      by (intros c Hc Hc'; apply Hczero; lia).
    specialize (Hlow Hz).
    pose proof (heap_sum_bound (elements (hp_bins st)) (num_bins st) Hheap
                  ltac:(lia)) as Hup.
    assert (Forall (λ b, 0 ≤ b) (elements (hp_bins st))) as Hnne
      by (eapply Forall_impl; [exact Halle|]; cbn beta; intros; lia).
    specialize (Hup Hnne Hout).
    rewrite Hsum, Hw in Hlow. rewrite Hsume in Hup.
    assert (num_bins st * elem (elements (hp_bins st)) 1
            ≤ num_bins st * (K - s)) by nia.
    nia.
Qed.

Lemma lookup_le_heap n K objects :
  valid_instance n K objects → 2 * K ≤ uint_max → 2 * n + 1 ≤ uint_max →
  ∃ lookup_bins heap_bins,
    best_fit_lookup n K objects = Some lookup_bins ∧
    best_fit_heap n K objects = Some heap_bins ∧
    lookup_bins ≤ heap_bins.
Proof.
  intros Hv HK2 Hn2. pose proof Hv as (Hn & HK & Hall).
  destruct (best_fit_lookup_spec n K objects Hv ltac:(lia) ltac:(lia))
    as (bc & Hlk & Hl & Hres).
  destruct (hp_lk_run n K objects Hv HK2 Hn2 (Z.to_nat n))
    as (st & bc' & Hhp & Hlk' & _ & _ & Hle); [done|].
  rewrite Hlk in Hlk'. injection Hlk' as <-.
  exists (n - elem bc K), (num_bins st). unfold best_fit_heap. rewrite Hhp.
  done.
Qed.

(** ** The trivial bounds on the bin count *)

Lemma ceil_div_le a b c : 0 < b → a ≤ b * c → ceil_div a b ≤ c.
Proof.
  intros Hb Hle. unfold ceil_div.
  assert ((a + b - 1) / b < c + 1); [|lia].
  apply Z.div_lt_upper_bound; lia.
Qed.

Lemma wload_le l w :
  Forall (λ c, 0 ≤ c) l → Z.of_nat (length l) = w + 1 →
  wload w l ≤ w * (zsum l - elem l w).
Proof.
  intros Hnn. revert w. induction Hnn as [|x l Hx Hnn IH]; intros w Hlen.
  - simpl in *. unfold elem, rd. rewrite decide_False by lia. simpl. lia.
  - simpl in Hlen. cbn [wload zsum foldr]. fold (zsum l).
    destruct (decide (w = 0)) as [->|Hw].
    + destruct l; [|simpl in Hlen; lia]. simpl. lia.
    + assert (elem (x :: l) w = elem l (w - 1)) as ->.
      { replace w with ((w - 1) + 1) at 1 by lia. apply elem_cons_S. lia. }
      specialize (IH (w - 1) ltac:(lia)).
      pose proof (elem_le_zsum l (w - 1) Hnn ltac:(lia)). nia.
Qed.

Lemma zsum_le_len l M :
  Forall (λ x, x ≤ M) l → zsum l ≤ Z.of_nat (length l) * M.
Proof. induction 1; simpl; [lia|]. fold (zsum l). lia. Qed.

Lemma zsum_perm l1 l2 : l1 ≡ₚ l2 → zsum l1 = zsum l2.
Proof. induction 1; simpl; fold zsum; try fold (zsum l); lia. Qed.

Lemma items_sum_all n objects :
  n = Z.of_nat (length objects) → items_sum objects (Z.to_nat n) = zsum objects.
Proof. intros ->. unfold items_sum. by rewrite Nat2Z.id, firstn_all. Qed.

Lemma bf_total_step K limit objects s (i : nat) st st' :
  objects !! i = Some s → 0 < s →
  bf_total K objects i st → bf_move K limit s i st st' →
  Forall (λ b, 0 ≤ b ≤ K) (open_bins st) →
  bf_total K objects (S i) st'.
Proof.
  intros Hobj Hs (G & HGl & HG & Hsum) Hmove Hall.
  assert (items_sum objects (S i) = items_sum objects i + s) as HT
    by (unfold items_sum; by rewrite (zsum_take_S _ _ _ Hobj)).
  rewrite zsum_app in Hsum.
  destruct Hmove as [j b Hbc Hj Hlim Hopen Hno Hnf Hpos
                    |j b Hbc Hj Hlim Hopen Hno Hnf Hpos
                    |Hnone Hopen Hno Hnf Hpos].
  - exists G. rewrite Hnf, Hopen, zsum_app.
    rewrite (zsum_insert _ _ _ b) by done. split_and!; [done|done|lia].
  - destruct (best_choice_lookup _ _ _ _ _ Hbc Hj) as [Hfit _].
    pose proof (Forall_lookup_1 _ _ _ _ Hall Hj) as Hb0. cbn beta in Hb0.
    exists ((b + s) :: G). rewrite Hnf. split_and!.
    + simpl. lia.
    + constructor; [lia|done].
    + rewrite zsum_app, (zsum_perm _ _ Hopen). simpl. fold (zsum G).
      pose proof (zsum_perm _ _ (delete_Permutation _ _ _ Hj)) as Hd.
      simpl in Hd. fold (zsum (delete j (open_bins st))) in Hd. lia.
  - exists G. rewrite Hnf, Hopen, !zsum_app. simpl. split_and!; [done|done|lia].
Qed.

Lemma bf_run_total n K min_size objects :
  valid_instance n K objects → 2 * K ≤ uint_max → n ≤ uint_max → 1 ≤ n →
  ∀ i, (i ≤ Z.to_nat n)%nat →
  ∃ st, bf_run n K min_size objects i = Some st ∧
        bf_basic n K i st ∧ bf_total K objects i st.
Proof.
  intros Hv HK2 Hnm Hn1 i Hi. pose proof Hv as (Hn & HK & Hall).
  apply (for_loop_inv _ (λ i st, bf_basic n K i st ∧ bf_total K objects i st)
           (Z.to_nat n)); [| |done].
  { split; [apply bf_basic_init; lia|]. exists []. split_and!; [done|constructor|].
    rewrite app_nil_r. unfold open_bins, bf_init, items_sum.
    cbn [bins num_open_bins].
    destruct (Z.to_nat n) as [|k] eqn:E; [lia|]. simpl. rewrite ?take_0.
    simpl. lia. }
  intros k st Hk [Hb Ht].
  destruct (valid_lookup n K objects k Hv) as (s & Hs & Hsr); [lia|].
  destruct (bf_body_spec n K (u32 (K - min_size)) objects k st s)
    as (st' & Hbody & Hlen & Hmove); [done|done|done|lia|done|done|].
  exists st'. split_and!; [done| |].
  - apply (bf_basic_step n K (u32 (K - min_size)) s k st st');
      [done|lia|done|done|done].
  - apply (bf_total_step K (u32 (K - min_size)) objects s k st st');
      [done|lia|done|done|]. by destruct Hb as (_ & _ & _ & _ & _ & ? & _).
Qed.

Lemma array_bounds n K min_size objects :
  valid_instance n K objects → 2 * K ≤ uint_max → n ≤ uint_max → 1 ≤ n →
  ∃ array_bins pos,
    best_fit n K min_size objects = Some (array_bins, pos) ∧
    ceil_div (zsum objects) K ≤ array_bins ≤ n.
Proof.
  intros Hv HK2 Hnm Hn1. pose proof Hv as (Hn & HK & Hall).
  destruct (bf_run_total n K min_size objects Hv HK2 Hnm Hn1 (Z.to_nat n))
    as (st & Hrun & Hb & G & HGl & HG & Hsum); [done|].
  pose proof (open_bins_length _ _ _ _ Hb) as Hol.
  destruct Hb as (Hlb & Hlp & Ho & Hf & Hle & Hallb & Hused).
  exists (bf_count st), (positions st). unfold best_fit. rewrite Hrun.
  split; [done|]. unfold bf_count. rewrite u32_small by lia.
  split; [|lia]. apply ceil_div_le; [done|].
  rewrite (items_sum_all n) in Hsum by done. rewrite <- Hsum.
  assert (Forall (λ x, x ≤ K) (open_bins st ++ G)) as Hbound.
  { apply Forall_app. split; (eapply Forall_impl; [eassumption|]);
      cbn beta; intros; lia. }
  pose proof (zsum_le_len _ _ Hbound) as Hz. rewrite length_app in Hz. lia.
Qed.

Lemma lookup_bounds n K objects :
  valid_instance n K objects → K < uint_max → n ≤ uint_max →
  ∃ lookup_bins,
    best_fit_lookup n K objects = Some lookup_bins ∧
    ceil_div (zsum objects) K ≤ lookup_bins ≤ n.
Proof.
  intros Hv HKm Hnm. pose proof Hv as (Hn & HK & Hall).
  destruct (best_fit_lookup_spec n K objects Hv HKm Hnm)
    as (bc & _ & (Hlen & Hnn & Hsum & HbK & Hw) & Hres).
  exists (n - elem bc K). split; [done|].
  pose proof (elem_nonneg bc K Hnn). split; [|lia].
  apply ceil_div_le; [done|].
  rewrite (items_sum_all n) in Hw by done. rewrite <- Hw, <- Hsum.
  by apply wload_le.
Qed.

Lemma heap_bounds n K objects :
  valid_instance n K objects → 2 * K ≤ uint_max → 2 * n + 1 ≤ uint_max →
  ∃ heap_bins,
    best_fit_heap n K objects = Some heap_bins ∧
    ceil_div (zsum objects) K ≤ heap_bins ≤ n.
Proof.
  intros Hv HK2 Hn2. pose proof Hv as (Hn & HK & Hall).
  destruct (hp_run_inv n K objects Hv HK2 Hn2 (Z.to_nat n))
    as (st & Hrun & Hnum & Hnb & Hlen & Hheap & Hsum & Halle & Hout); [done|].
  exists (num_bins st). unfold best_fit_heap. rewrite Hrun. split; [done|].
  split; [|lia]. apply ceil_div_le; [done|].
  rewrite (items_sum_all n) in Hsum by done. rewrite <- Hsum.
  apply max_heap_parent in Hheap.
  assert (Forall (λ b, 0 ≤ b) (elements (hp_bins st))) as Hnne
    by (eapply Forall_impl; [exact Halle|]; cbn beta; intros; lia).
  pose proof (heap_sum_bound _ _ Hheap ltac:(lia) Hnne Hout) as Hup.
  destruct (decide (n = 0)) as [->|Hn0].
  - assert (num_bins st = 0) as Hz by lia. rewrite Hz in *. lia.
  - pose proof (Forall_elem _ _ 1 Halle ltac:(lia)) as Hroot.
    cbn beta in Hroot. nia.
Qed.

(** ** The shape of the heap of [best_fit_heap] *)

Lemma hp_body_shape n K objects (i : nat) st s :
  n ≤ 2 ^ 31 → hp_shape n i st → Z.of_nat i < n →
  objects !! i = Some s →
  ∃ st', hp_body n K objects (Z.of_nat i) st = Some st' ∧
         hp_move s st st' ∧ hp_shape n (S i) st'.
Proof.
  intros Hn31 (Hnum & Hnb & Hlen & Hheap) Hi Hobj.
  assert (2 * n - 1 ≤ uint_max) as Hn2 by (unfold uint_max; lia).
  apply max_heap_parent in Hheap.
  assert (∃ best, hp_find n K s st = Some best ∧
                  (best.1 = n ∨ 1 ≤ best.1 ≤ num_bins st))
    as (best & Hfind & Hres).
  { unfold hp_find. destruct (decide (num_bins st ≠ 0)) as [Hne|];
      [|exists (n, 0); by split; [|left]].
    rewrite rd_in by lia. bind_step.
    destruct (decide _); [|exists (n, 0); by split; [|left]].
    apply (bfs_gen (λ b, b.1 = n ∨ 1 ≤ b.1 ≤ num_bins st));
      [lia|lia| | |lia|by left].
    - intros j Hj _. right. done.
    - simpl. split_and!; [lia|lia|done|constructor]. }
  unfold hp_body. rewrite rd_nat, Hobj. bind_step.
  rewrite Hfind. bind_step. unfold hp_place.
  destruct Hres as [Hbn|Hj].
  - rewrite decide_False by lia.
    destruct (push_spec (λ _, True) (hp_bins st) s)
      as (h' & Hpush & Hnum' & Hlen' & Hheap' & _);
      [by rewrite Hnum|lia|lia|by apply Forall_true|done|].
    rewrite Hpush. bind_step. rewrite u32_small by lia.
    eexists. split; [done|]. split; [left; eauto|].
    unfold hp_shape. cbn [hp_bins num_bins]. rewrite Hnum' in Hheap'.
    rewrite Hnum in *.
    split_and!; [done|lia|lia|lia|by apply max_heap_parent].
  - rewrite decide_True by lia. rewrite rd_in by lia. bind_step.
    rewrite wr_in by lia. bind_step.
    destruct (reheap_down_spec (λ _, True) (elements (hp_bins st))
                (num_bins st) best.1
                (u32 (elem (elements (hp_bins st)) best.1 + s)))
      as (Hnum' & Hlen' & Hheap' & _);
      [done|lia|lia|by apply Forall_true|done|].
    eexists. split; [done|]. split; [right; eauto|].
    rewrite Hnum. unfold hp_shape. cbn [hp_bins num_bins].
    split_and!; [done|lia|lia|lia|by apply max_heap_parent].
Qed.

Lemma hp_shape_init n : 0 ≤ n → hp_shape n 0 (hp_init n).
Proof.
  intros Hn. destruct (hp_inv_init n 0 [] Hn ltac:(lia))
    as (H1 & H2 & H3 & H4 & _).
  by split_and!.
Qed.

(** ** The search of [best_fit_heap] over [2^31] bins *)







(** * The claims *)

(** C1 (amended): on every valid instance whose sizes keep the 32-bit sums
    of the source exact ([2K] and [2n + 1] below [2^32]) and whose items are
    all at least [min_size], the three heuristics return, and the bin count
    of [best_fit_lookup] is at most that of [best_fit] and at most that of
    [best_fit_heap]. *)
Theorem lookup_le_array_and_heap n K min_size objects :
  valid_instance n K objects →
  2 * K ≤ uint_max → 2 * n + 1 ≤ uint_max →
  0 ≤ min_size → Forall (λ o, min_size ≤ o) objects →
  ∃ lookup_bins array_bins pos heap_bins,
    best_fit_lookup n K objects = Some lookup_bins ∧
    best_fit n K min_size objects = Some (array_bins, pos) ∧
    best_fit_heap n K objects = Some heap_bins ∧
    lookup_bins ≤ array_bins ∧ lookup_bins ≤ heap_bins.
Proof.
  intros Hv HK2 Hn2 Hm0 Hmin.
  assert (n ≤ uint_max) as Hnm by (destruct Hv as (-> & _); lia).
  destruct (lookup_le_array n K min_size objects Hv HK2 Hnm Hm0 Hmin)
    as (l & a & pos & Hl & Ha & Hla).
  destruct (lookup_le_heap n K objects Hv HK2 Hn2) as (l' & h & Hl' & Hh & Hlh).
  rewrite Hl in Hl'. injection Hl' as <-.
  exists l, a, pos, h. done.
Qed.

Lemma lookup_le_array_and_heap_witness :
  ∃ lookup_bins array_bins pos heap_bins,
    best_fit_lookup 6 10 [4; 8; 1; 4; 2; 1] = Some lookup_bins ∧
    best_fit 6 10 1 [4; 8; 1; 4; 2; 1] = Some (array_bins, pos) ∧
    best_fit_heap 6 10 [4; 8; 1; 4; 2; 1] = Some heap_bins ∧
    lookup_bins ≤ array_bins ∧ lookup_bins ≤ heap_bins.
Proof.
  apply (lookup_le_array_and_heap 6 10 1 [4; 8; 1; 4; 2; 1]).
  - split_and!; [reflexivity|lia|repeat constructor; lia].
  - vm_compute. discriminate.
  - vm_compute. discriminate.
  - lia.
  - repeat constructor; lia.
Defined.

(** C1, as stated, fails where a load and an item sum past [2^32]:
    with [K = 2^32 - 2] the items [2^31] and [2^31 + 1] end in one bin of
    [best_fit], and in two bins of [best_fit_lookup]. *)
Lemma lookup_exceeds_array_on_wrap :
  ∃ lookup_bins array_bins pos,
    valid_instance 2 4294967294 [2147483648; 2147483649] ∧
    best_fit_lookup 2 4294967294 [2147483648; 2147483649] = Some lookup_bins ∧
    best_fit 2 4294967294 1 [2147483648; 2147483649] = Some (array_bins, pos) ∧
    array_bins < lookup_bins.
Proof.
  assert (valid_instance 2 4294967294 [2147483648; 2147483649]) as Hv
    by (split_and!; [reflexivity|lia|repeat constructor; lia]).
  destruct (lookup_bounds 2 4294967294 [2147483648; 2147483649] Hv)
    as (l & Hl & Hlow & _); [vm_compute; reflexivity|vm_compute; discriminate|].
  exists l, 1, [0; 0]. split_and!; [done|done|by vm_compute|].
  assert (ceil_div (zsum [2147483648; 2147483649]) 4294967294 = 2) as E
    by reflexivity.
  rewrite E in Hlow. lia.
Qed.

(** C2 (amended): on every valid instance with [2K] and [2n + 1] below
    [2^32], [best_fit_heap] and [best_fit_lookup] return a bin count that is
    at least [ceil(sum(items)/K)] and at most [n], and so does [best_fit]
    when there is at least one item. *)
Theorem bin_count_bounds n K min_size objects :
  valid_instance n K objects →
  2 * K ≤ uint_max → 2 * n + 1 ≤ uint_max →
  (∃ heap_bins, best_fit_heap n K objects = Some heap_bins ∧
                ceil_div (zsum objects) K ≤ heap_bins ≤ n) ∧
  (∃ lookup_bins, best_fit_lookup n K objects = Some lookup_bins ∧
                  ceil_div (zsum objects) K ≤ lookup_bins ≤ n) ∧
  (1 ≤ n →
   ∃ array_bins pos, best_fit n K min_size objects = Some (array_bins, pos) ∧
                     ceil_div (zsum objects) K ≤ array_bins ≤ n).
Proof.
  intros Hv HK2 Hn2.
  assert (0 ≤ n ∧ 0 < K) as [Hn0 HK] by (destruct Hv as (-> & ? & _); lia).
  split_and!.
  - by apply heap_bounds.
  - apply lookup_bounds; [done|lia|lia].
  - intros Hn1. apply array_bounds; [done|done|lia|done].
Qed.

Lemma bin_count_bounds_witness :
  (∃ heap_bins, best_fit_heap 4 10 [6; 6; 6; 6] = Some heap_bins ∧
                ceil_div (zsum [6; 6; 6; 6]) 10 ≤ heap_bins ≤ 4) ∧
  (∃ lookup_bins, best_fit_lookup 4 10 [6; 6; 6; 6] = Some lookup_bins ∧
                  ceil_div (zsum [6; 6; 6; 6]) 10 ≤ lookup_bins ≤ 4) ∧
  (1 ≤ 4 →
   ∃ array_bins pos, best_fit 4 10 6 [6; 6; 6; 6] = Some (array_bins, pos) ∧
                     ceil_div (zsum [6; 6; 6; 6]) 10 ≤ array_bins ≤ 4).
Proof.
  apply (bin_count_bounds 4 10 6 [6; 6; 6; 6]).
  - split_and!; [reflexivity|lia|repeat constructor; lia].
  - vm_compute. discriminate.
  - vm_compute. discriminate.
Defined.

(** C2, as stated, fails where a load and an item sum past [2^32]: with
    [K = 2^32 - 2] the items [2^31] and [2^31 + 1] need two bins, and
    [best_fit] reports one. *)
Lemma array_below_lower_bound_on_wrap :
  valid_instance 2 4294967294 [2147483648; 2147483649] ∧
  best_fit 2 4294967294 1 [2147483648; 2147483649] = Some (1, [0; 0]) ∧
  ceil_div (zsum [2147483648; 2147483649]) 4294967294 = 2.
Proof.
  split; [split_and!; [reflexivity|lia|repeat constructor; lia]|].
  split; [by vm_compute|reflexivity].
Qed.

(** C3 (the code breaks it): on the items [5; 6; 5; 4] with [K = 10] and
    [min_size = 4], [best_fit] reports two bins and assigns the items of
    sizes 5, 5 and 4 to bin index 0: the slot of the retired bin is reused
    for the bin that was opened at index 1. *)
Theorem positions_overfill_reused_slot :
  best_fit 4 10 4 [5; 6; 5; 4] = Some (2, [0; 1; 0; 0]) ∧
  bin_load [5; 6; 5; 4] [0; 1; 0; 0] 0 = 14 ∧
  bf_run 4 10 4 [5; 6; 5; 4] 3 = Some (BfState [6; 6; 0; 0] [0; 1; 0; 0] 1 1).
Proof. split_and!; by vm_compute. Qed.




(** C5 (the code breaks it): on the empty instance [best_fit] reports one
    bin, the open bin it starts with; [best_fit_heap] and [best_fit_lookup]
    report none. *)
Theorem empty_instance_counts K min_size :
  best_fit 0 K min_size [] = Some (1, []) ∧
  best_fit_heap 0 K [] = Some 0 ∧
  best_fit_lookup 0 10 [] = Some 0.
Proof. split_and!; reflexivity. Qed.

(** C6 (the code breaks it): with [K = 10] and [min_size = 2] the item of
    size 9 that follows an item of size 5 opens a new bin, which stays in
    the open set with a load above [K - min_size = 8]. *)
Theorem new_bin_stays_open :
  bf_run 2 10 2 [5; 9] 2 = Some (BfState [5; 9] [0; 1] 2 0) ∧
  open_bins (BfState [5; 9] [0; 1] 2 0) = [5; 9] ∧
  u32 (10 - 2) = 8.
Proof. split_and!; by vm_compute. Qed.

(** C7 (the code breaks it): on the single item [11] with [K = 10] no bin
    fits, the open count is still 1, and the new bin is written to
    [bins[1]] of an array of one element. *)
Theorem oversized_first_item_out_of_bounds :
  find_best 1 10 11 (bf_init 1) = Some (1, 0) ∧
  length (bins (bf_init 1)) = 1%nat ∧
  wr (bins (bf_init 1)) (num_open_bins (bf_init 1)) 11 = None ∧
  best_fit 1 10 1 [11] = None.
Proof. split_and!; by vm_compute. Qed.

(** C8 (amended): on every valid instance with [2K] below [2^32], each
    item is placed in the open bin whose load plus the item size is the
    largest that is still at most [K], the lowest index among equals, and
    no bin is opened then; a new bin is opened when no open bin's load plus
    the item size is at most [K]. *)
Theorem best_fit_picks_best_bin n K min_size objects (i : nat) :
  valid_instance n K objects → 2 * K ≤ uint_max → n ≤ uint_max →
  Z.of_nat i < n →
  ∃ st st' s,
    bf_run n K min_size objects i = Some st ∧
    bf_run n K min_size objects (S i) = Some st' ∧
    objects !! i = Some s ∧
    ((∃ j, best_choice K s (open_bins st) j ∧
           positions st' !! i = Some (Z.of_nat j) ∧
           num_open_bins st' ≤ num_open_bins st) ∨
     (none_fits K s (open_bins st) ∧
      positions st' !! i = Some (num_open_bins st) ∧
      num_open_bins st' = num_open_bins st + 1 ∧
      open_bins st' = open_bins st ++ [s])).
Proof.
  intros Hv HK2 Hnm Hi.
  destruct (bf_run_basic n K min_size objects Hv HK2 Hnm i) as (st & Hrun & Hb);
    [lia|lia|].
  destruct (valid_lookup n K objects i Hv Hi) as (s & Hs & Hsr).
  destruct (bf_body_spec n K (u32 (K - min_size)) objects i st s)
    as (st' & Hbody & Hlen & Hmove); [done..|].
  exists st, st', s. rewrite bf_run_S, Hrun. bind_step.
  split_and!; [done|done|done|].
  destruct Hb as (_ & Hlp & _).
  assert (∀ v, <[i := v]> (positions st) !! i = Some v) as Hpos
    by (intros v; apply list_lookup_insert_eq; lia).
  destruct Hmove as [j b Hbc Hj Hlim Hopen Hno Hnf Hp
                    |j b Hbc Hj Hlim Hopen Hno Hnf Hp
                    |Hnone Hopen Hno Hnf Hp]; rewrite Hp, Hpos.
  - left. exists j. split_and!; [done|done|lia].
  - left. exists j. split_and!; [done|done|lia].
  - right. done.
Qed.

Lemma best_fit_picks_best_bin_witness :
  ∃ st st' s,
    bf_run 6 10 1 [4; 8; 1; 4; 2; 1] 3 = Some st ∧
    bf_run 6 10 1 [4; 8; 1; 4; 2; 1] 4 = Some st' ∧
    [4; 8; 1; 4; 2; 1] !! 3%nat = Some s ∧
    ((∃ j, best_choice 10 s (open_bins st) j ∧
           positions st' !! 3%nat = Some (Z.of_nat j) ∧
           num_open_bins st' ≤ num_open_bins st) ∨
     (none_fits 10 s (open_bins st) ∧
      positions st' !! 3%nat = Some (num_open_bins st) ∧
      num_open_bins st' = num_open_bins st + 1 ∧
      open_bins st' = open_bins st ++ [s])).
Proof.
  apply (best_fit_picks_best_bin 6 10 1 [4; 8; 1; 4; 2; 1] 3).
  - split_and!; [reflexivity|lia|repeat constructor; lia].
  - vm_compute. discriminate.
  - vm_compute. discriminate.
  - lia.
Defined.

(** C8, as stated, fails where a load and an item sum past [2^32]: with
    [K = 2^32 - 2] the item [2^31 + 1] is placed in the open bin of load
    [2^31], although the two together exceed [K]. *)
Lemma best_fit_choice_wraps :
  valid_instance 2 4294967294 [2147483648; 2147483649] ∧
  ∃ st st',
    bf_run 2 4294967294 1 [2147483648; 2147483649] 1 = Some st ∧
    bf_run 2 4294967294 1 [2147483648; 2147483649] 2 = Some st' ∧
    open_bins st = [2147483648] ∧
    positions st' !! 1%nat = Some 0 ∧
    num_open_bins st' = num_open_bins st ∧
    4294967294 < 2147483648 + 2147483649.
Proof.
  split; [split_and!; [reflexivity|lia|repeat constructor; lia]|].
  eexists _, _. split_and!; [by vm_compute|by vm_compute|..]; by vm_compute.
Qed.

(** C9 (amended): on every valid instance with [K] below [2^32 - 1] the
    histogram [bin_count] has [K + 1] entries whose sum is [n] after the
    initialisation and after each item; each item moves one unit of count
    from the entry [cur] it is served from to the entry [cur - s]. *)
Theorem lookup_histogram_sum n K objects :
  valid_instance n K objects → K < uint_max → n ≤ uint_max →
  ∀ i, (i ≤ Z.to_nat n)%nat →
  ∃ bc, lk_run n K objects i = Some bc ∧
        Z.of_nat (length bc) = K + 1 ∧ zsum bc = n ∧
        (Z.of_nat i < n →
         ∃ s cur, objects !! i = Some s ∧ 0 ≤ cur - s < cur ∧ cur ≤ K ∧
                  0 < elem bc cur ∧
                  lk_run n K objects (S i) = Some (lk_move bc cur s) ∧
                  zsum (lk_move bc cur s) = n).
Proof.
  intros Hv HKm Hnm i Hi. pose proof Hv as (Hn & HK & Hall).
  destruct (lk_run_inv n K objects Hv HKm Hnm i Hi) as (bc & Hrun & Hinv).
  exists bc. pose proof Hinv as (Hlen & Hnn & Hsum & _).
  split_and!; [done|done|done|]. intros Hlt.
  destruct (valid_lookup n K objects i Hv Hlt) as (s & Hs & Hsr).
  destruct (lk_body_spec n K objects i bc s)
    as (cur & _ & Hcr & Hcpos & _ & Hb & Hinv'); [done..|].
  exists s, cur. rewrite lk_run_S, Hrun. bind_step.
  split_and!; [done|lia|lia|lia|done|done|].
  by destruct Hinv' as (_ & _ & ? & _).
Qed.

Lemma lookup_histogram_sum_witness :
  ∃ bc, lk_run 6 10 [4; 8; 1; 4; 2; 1] 2 = Some bc ∧
        Z.of_nat (length bc) = 10 + 1 ∧ zsum bc = 6 ∧
        (Z.of_nat 2 < 6 →
         ∃ s cur, [4; 8; 1; 4; 2; 1] !! 2%nat = Some s ∧
                  0 ≤ cur - s < cur ∧ cur ≤ 10 ∧ 0 < elem bc cur ∧
                  lk_run 6 10 [4; 8; 1; 4; 2; 1] 3 = Some (lk_move bc cur s) ∧
                  zsum (lk_move bc cur s) = 6).
Proof.
  apply (lookup_histogram_sum 6 10 [4; 8; 1; 4; 2; 1]).
  - split_and!; [reflexivity|lia|repeat constructor; lia].
  - vm_compute. reflexivity.
  - vm_compute. discriminate.
  - vm_compute. lia.
Defined.

(** C9, as stated, fails for [K = 2^32 - 1]: [K + 1] wraps to 0, the
    array has no entry, and the initial write of [bin_count[K]] is outside
    it. *)
Lemma lookup_init_out_of_bounds :
  valid_instance 0 4294967295 [] ∧
  u32 (4294967295 + 1) = 0 ∧
  lk_run 0 4294967295 [] 0 = None.
Proof.
  split; [split_and!; [reflexivity|lia|constructor]|].
  split; by vm_compute.
Qed.

(** C10 (amended): on every instance with all item sizes positive and at
    most [K], and [K] below [2^32 - 1], the upward search for each item
    ends at some [cur_size] between the item size and [K], with all
    accesses inside the [K + 1] entries of [bin_count] and no wrap in
    [cur_size - req_size]; [best_fit_lookup] returns. *)
Theorem lookup_search_in_bounds n K objects :
  valid_instance n K objects → K < uint_max → n ≤ uint_max →
  (∀ i : nat, Z.of_nat i < n →
     ∃ bc s cur,
       lk_run n K objects i = Some bc ∧ Z.of_nat (length bc) = K + 1 ∧
       objects !! i = Some s ∧
       search_bin (S (length bc)) bc s = Some cur ∧
       s ≤ cur ≤ K ∧ elem bc cur ≠ 0 ∧
       (∀ c, s ≤ c < cur → elem bc c = 0) ∧
       u32 (cur - s) = cur - s ∧ 0 ≤ cur - s ≤ K ∧
       is_Some (lk_run n K objects (S i))) ∧
  is_Some (best_fit_lookup n K objects).
Proof.
  intros Hv HKm Hnm. pose proof Hv as (Hn & HK & Hall). split.
  - intros i Hlt.
    destruct (lk_run_inv n K objects Hv HKm Hnm i ltac:(lia))
      as (bc & Hrun & Hinv).
    destruct (valid_lookup n K objects i Hv Hlt) as (s & Hs & Hsr).
    destruct (lk_body_spec n K objects i bc s)
      as (cur & Hsearch & Hcr & Hcpos & Hzero & Hb & Hinv'); [done..|].
    exists bc, s, cur. rewrite lk_run_S, Hrun. bind_step.
    rewrite Hb. destruct Hinv as (Hlen & _).
    split_and!; try done; try lia.
    apply u32_small. lia.
  - destruct (best_fit_lookup_spec n K objects Hv HKm Hnm) as (bc & _ & _ & ->).
    done.
Qed.

Lemma lookup_search_in_bounds_witness :
  (∀ i : nat, Z.of_nat i < 4 →
     ∃ bc s cur,
       lk_run 4 10 [6; 6; 6; 6] i = Some bc ∧ Z.of_nat (length bc) = 10 + 1 ∧
       [6; 6; 6; 6] !! i = Some s ∧
       search_bin (S (length bc)) bc s = Some cur ∧
       s ≤ cur ≤ 10 ∧ elem bc cur ≠ 0 ∧
       (∀ c, s ≤ c < cur → elem bc c = 0) ∧
       u32 (cur - s) = cur - s ∧ 0 ≤ cur - s ≤ 10 ∧
       is_Some (lk_run 4 10 [6; 6; 6; 6] (S i))) ∧
  is_Some (best_fit_lookup 4 10 [6; 6; 6; 6]).
Proof.
  apply (lookup_search_in_bounds 4 10 [6; 6; 6; 6]).
  - split_and!; [reflexivity|lia|repeat constructor; lia].
  - vm_compute. reflexivity.
  - vm_compute. discriminate.
Defined.

(** C10, as stated, fails for [K = 2^32 - 1]: the array has no entry, so
    for the single item [1] there is no histogram to search: the first
    write, of [bin_count[K]], is already outside the array. *)
Lemma lookup_search_without_array :
  valid_instance 1 4294967295 [1] ∧
  lk_init 1 4294967295 = None ∧
  best_fit_lookup 1 4294967295 [1] = None.
Proof.
  split; [split_and!; [reflexivity|lia|repeat constructor; lia]|].
  split; by vm_compute.
Qed.

(** * Further properties of the three heuristics *)

(** ** [best_fit] and [best_fit_lookup] count the same bins *)

(** After the first item no open bin of [best_fit] is empty. *)
Lemma bf_move_no_zero K limit s (i : nat) st st' :
  0 < s ≤ K → Forall (λ b, 0 ≤ b ≤ K) (open_bins st) →
  open_bins st = [0] ∨ cnt 0 (open_bins st) = 0 →
  bf_move K limit s i st st' → cnt 0 (open_bins st') = 0.
Proof.
  intros Hs Hall Hz Hmove.
  destruct Hmove as [j b Hbc Hj Hlim Hopen Hno Hnf Hpos
                    |j b Hbc Hj Hlim Hopen Hno Hnf Hpos
                    |Hnone Hopen Hno Hnf Hpos].
  - pose proof (Forall_lookup_1 _ _ _ _ Hall Hj) as Hb0. cbn beta in Hb0.
    rewrite Hopen, (cnt_insert _ _ _ b) by done.
    rewrite (decide_False (P := b + s = 0)) by lia.
    destruct Hz as [Hz|Hz].
    { rewrite Hz in *. destruct j as [|j]; simplify_eq/=. done. }
    rewrite Hz. case_decide; [|lia]. subst b.
    pose proof (elem_cnt_pos 0 _ (list_elem_of_lookup_2 _ _ _ Hj)). lia.
  - rewrite (cnt_perm _ _ _ Hopen), (cnt_delete _ _ _ b) by done.
    destruct Hz as [Hz|Hz].
    + rewrite Hz in *. destruct j as [|j]; simplify_eq/=. done.
    + rewrite Hz. case_decide; [|lia]. subst b.
      pose proof (elem_cnt_pos 0 _ (list_elem_of_lookup_2 _ _ _ Hj)). lia.
  - pose proof (none_fits_no_zero K s _ ltac:(lia) Hnone) as H0.
    rewrite Hopen, cnt_app, H0. simpl. case_decide; lia.
Qed.

Lemma bf_run_no_zero n K min_size objects :
  valid_instance n K objects → 2 * K ≤ uint_max → n ≤ uint_max → 1 ≤ n →
  ∀ i, (i ≤ Z.to_nat n)%nat →
  ∃ st, bf_run n K min_size objects i = Some st ∧ bf_basic n K i st ∧
        (i = O ∧ open_bins st = [0] ∨ cnt 0 (open_bins st) = 0).
Proof.
  intros Hv HK2 Hnm Hn1 i Hi. pose proof Hv as (Hn & HK & Hall).
  apply (for_loop_inv _
           (λ i st, bf_basic n K i st ∧
                    (i = O ∧ open_bins st = [0] ∨ cnt 0 (open_bins st) = 0))
           (Z.to_nat n)); [| |done].
  { split; [apply bf_basic_init; lia|]. left. split; [done|].
    unfold open_bins, bf_init. cbn [bins num_open_bins].
    destruct (Z.to_nat n) as [|k] eqn:E; [lia|]. simpl. by rewrite take_0. }
  intros k st Hk [Hb Hz].
  destruct (valid_lookup n K objects k Hv) as (s & Hs & Hsr); [lia|].
  destruct (bf_body_spec n K (u32 (K - min_size)) objects k st s)
    as (st' & Hbody & Hlen & Hmove); [done|done|done|lia|done|done|].
  exists st'. split_and!; [done| |].
  - apply (bf_basic_step n K (u32 (K - min_size)) s k st st');
      [done|lia|done|done|done].
  - right. apply (bf_move_no_zero K (u32 (K - min_size)) s k st st');
      [done| | |done].
    + by destruct Hb as (_ & _ & _ & _ & _ & ? & _).
    + destruct Hz as [[_ ?]|?]; [by left|by right].
Qed.

(** X1: on a valid instance with at least one item, [2K] below [2^32] and
    every item at least [min_size], [best_fit] and [best_fit_lookup] return
    the same bin count. *)
Theorem array_count_eq_lookup n K min_size objects :
  valid_instance n K objects → 2 * K ≤ uint_max → n ≤ uint_max →
  0 ≤ min_size → Forall (λ o, min_size ≤ o) objects → 1 ≤ n →
  ∃ bins_used pos,
    best_fit n K min_size objects = Some (bins_used, pos) ∧
    best_fit_lookup n K objects = Some bins_used.
Proof.
  intros Hv HK2 Hnm Hm0 Hmin Hn1. pose proof Hv as (Hn & HK & Hall).
  destruct (best_fit_lookup_spec n K objects Hv ltac:(lia) Hnm)
    as (bc & Hlk & Hl & Hres).
  destruct (bf_lk_run n K min_size objects Hv HK2 Hnm Hm0 Hmin Hn1
              (Z.to_nat n)) as (st & bc' & Hbf & Hlk' & Hb & _ & Hbl); [done|].
  rewrite Hlk in Hlk'. injection Hlk' as <-.
  destruct (bf_run_no_zero n K min_size objects Hv HK2 Hnm Hn1 (Z.to_nat n))
    as (st' & Hbf' & _ & Hz); [done|].
  rewrite Hbf in Hbf'. injection Hbf' as <-.
  destruct Hz as [[Hz _]|Hz]; [lia|].
  exists (bf_count st), (positions st). unfold best_fit. rewrite Hbf.
  split; [done|]. rewrite Hres. f_equal.
  pose proof (open_bins_length _ _ _ _ Hb) as Hol.
  destruct Hb as (Hlb & Hlp & Ho & Hf & Hle & Hallb & Hused).
  destruct Hbl as (G & HGl & HG & Hh).
  unfold bf_count. rewrite u32_small by lia.
  rewrite (Hh K) by lia. rewrite decide_True by done.
  replace (K - K) with 0 by lia. rewrite length_app, cnt_app, Hz.
  assert (cnt 0 G = 0) as ->; [|lia].
  apply cnt_zero_not_elem. intros H0. rewrite Forall_forall in HG.
  specialize (HG 0 H0).
  destruct objects as [|o objects]; [simpl in Hn; lia|].
  inversion Hmin; subst. inversion Hall; subst. lia.
Qed.

Lemma array_count_eq_lookup_witness :
  ∃ bins_used pos,
    best_fit 6 10 1 [4; 8; 1; 4; 2; 1] = Some (bins_used, pos) ∧
    best_fit_lookup 6 10 [4; 8; 1; 4; 2; 1] = Some bins_used.
Proof.
  apply (array_count_eq_lookup 6 10 1 [4; 8; 1; 4; 2; 1]).
  - split_and!; [reflexivity|lia|repeat constructor; lia].
  - vm_compute. discriminate.
  - vm_compute. discriminate.
  - lia.
  - repeat constructor; lia.
  - lia.
Defined.

(** ** The bin indices recorded by [best_fit] *)

Lemma bf_move_positions K limit s (i : nat) n st st' :
  bf_basic n K i st →
  Forall (λ p, 0 ≤ p < num_open_bins st + num_full_bins st) (positions st) →
  bf_move K limit s i st st' →
  Forall (λ p, 0 ≤ p < num_open_bins st' + num_full_bins st') (positions st').
Proof.
  intros Hb Hpos Hmove.
  pose proof (open_bins_length _ _ _ _ Hb) as Hol.
  destruct Hb as (Hlb & Hlp & Ho & Hf & Hle & Hall & Hused).
  destruct Hmove as [j b Hbc Hj Hlim Hopen Hno Hnf Hp
                    |j b Hbc Hj Hlim Hopen Hno Hnf Hp
                    |Hnone Hopen Hno Hnf Hp]; rewrite Hp, Hno, Hnf.
  - pose proof (lookup_lt_Some _ _ _ Hj). apply Forall_insert; [done|lia].
  - pose proof (lookup_lt_Some _ _ _ Hj). apply Forall_insert; [|lia].
    eapply Forall_impl; [exact Hpos|]. cbn beta. intros; lia.
  - apply Forall_insert; [|lia].
    eapply Forall_impl; [exact Hpos|]. cbn beta. intros; lia.
Qed.

(** X2: on a valid instance with at least one item and [2K] below [2^32],
    [best_fit] fills [positions] with [n] bin indices that are all below
    the bin count it returns. *)
Theorem positions_below_count n K min_size objects :
  valid_instance n K objects → 2 * K ≤ uint_max → n ≤ uint_max → 1 ≤ n →
  ∃ bins_used pos,
    best_fit n K min_size objects = Some (bins_used, pos) ∧
    Z.of_nat (length pos) = n ∧
    Forall (λ p, 0 ≤ p < bins_used) pos.
Proof.
  intros Hv HK2 Hnm Hn1. pose proof Hv as (Hn & HK & Hall).
  destruct (for_loop_inv (bf_body n K (u32 (K - min_size)) objects)
              (λ i st, bf_basic n K i st ∧
                 Forall (λ p, 0 ≤ p < num_open_bins st + num_full_bins st)
                        (positions st))
              (Z.to_nat n) (bf_init n)) with (k := Z.to_nat n)
    as (st & Hrun & Hb & Hpos); [| |done|].
  { split; [apply bf_basic_init; lia|]. unfold bf_init.
    cbn [positions num_open_bins num_full_bins]. apply Forall_replicate. lia. }
  { intros k st Hk [Hb Hpos].
    destruct (valid_lookup n K objects k Hv) as (s & Hs & Hsr); [lia|].
    destruct (bf_body_spec n K (u32 (K - min_size)) objects k st s)
      as (st' & Hbody & Hlen & Hmove); [done|done|done|lia|done|done|].
    exists st'. split_and!; [done| |].
    - apply (bf_basic_step n K (u32 (K - min_size)) s k st st');
        [done|lia|done|done|done].
    - by apply (bf_move_positions K (u32 (K - min_size)) s k n st st'). }
  exists (bf_count st), (positions st). unfold best_fit, bf_run. rewrite Hrun.
  destruct Hb as (Hlb & Hlp & Ho & Hf & Hle & _).
  split_and!; [done|done|]. unfold bf_count. by rewrite u32_small by lia.
Qed.

Lemma positions_below_count_witness :
  ∃ bins_used pos,
    best_fit 4 10 4 [5; 6; 5; 4] = Some (bins_used, pos) ∧
    Z.of_nat (length pos) = 4 ∧
    Forall (λ p, 0 ≤ p < bins_used) pos.
Proof.
  apply (positions_below_count 4 10 4 [5; 6; 5; 4]).
  - split_and!; [reflexivity|lia|repeat constructor; lia].
  - vm_compute. discriminate.
  - vm_compute. discriminate.
  - lia.
Defined.

(** ** The histogram of [best_fit_lookup] on any prefix of valid items *)

Lemma for_loop_none {St} (body : Z → St → option St) i k m st :
  for_loop body i k st = None → for_loop body i (k + m) st = None.
Proof.
  intros Hk. induction m as [|m IH].
  - by rewrite Nat.add_0_r.
  - rewrite Nat.add_succ_r, for_loop_snoc, IH. done.
Qed.

Lemma lk_run_none n K objects i m :
  lk_run n K objects i = None → lk_run n K objects (i + m) = None.
Proof.
  unfold lk_run. destruct (lk_init n K) as [bc|]; [|done]. bind_step.
  apply for_loop_none.
Qed.

(** The rounds of [best_fit_lookup] succeed as long as the items are
    valid, whatever follows them. *)
Lemma lk_run_inv_prefix n K objects :
  n = Z.of_nat (length objects) → 0 < K → K < uint_max → n ≤ uint_max →
  ∀ i, (i ≤ Z.to_nat n)%nat →
  (∀ (k : nat) s, (k < i)%nat → objects !! k = Some s → 0 < s ≤ K) →
  ∃ bc, lk_run n K objects i = Some bc ∧ lk_inv n K objects i bc.
Proof.
  intros Hn HK HKm Hnm. induction i as [|i IH]; intros Hi Hpre.
  - destruct (lk_init_spec n K objects) as (bc0 & H0 & Hinv0); [done|done|lia|].
    exists bc0. unfold lk_run. rewrite H0. done.
  - destruct IH as (bc & Hrun & Hinv); [lia|intros k s ?; apply Hpre; lia|].
    destruct (lookup_lt_is_Some_2 objects i) as [s Hs]; [lia|].
    destruct (lk_body_spec n K objects i bc s)
      as (cur & _ & _ & _ & _ & Hb & Hinv');
      [done|done|done|done|lia|done|apply (Hpre i); [lia|done]|].
    exists (lk_move bc cur s). rewrite lk_run_S, Hrun. bind_step. done.
Qed.

(** X3: after each item of a valid instance the histogram accounts for
    exactly the sizes served so far, the entry [c] standing for bins of load
    [K - c], and no more bins are in use than items were served. *)
Theorem lookup_histogram_load n K objects :
  valid_instance n K objects → K < uint_max → n ≤ uint_max →
  ∀ i, (i ≤ Z.to_nat n)%nat →
  ∃ bc, lk_run n K objects i = Some bc ∧
        Forall (λ c, 0 ≤ c) bc ∧
        wload K bc = zsum (take i objects) ∧
        0 ≤ n - elem bc K ≤ Z.of_nat i.
Proof.
  intros Hv HKm Hnm i Hi. pose proof Hv as (Hn & HK & Hall).
  destruct (lk_run_inv n K objects Hv HKm Hnm i Hi)
    as (bc & Hrun & Hlen & Hnn & Hsum & HbK & Hw).
  exists bc. split_and!; [done|done|done| |lia].
  pose proof (elem_le_zsum bc K Hnn ltac:(lia)). lia.
Qed.

Lemma lookup_histogram_load_witness :
  ∃ bc, lk_run 6 10 [4; 8; 1; 4; 2; 1] 4 = Some bc ∧
        Forall (λ c, 0 ≤ c) bc ∧
        wload 10 bc = zsum (take 4 [4; 8; 1; 4; 2; 1]) ∧
        0 ≤ 6 - elem bc 10 ≤ Z.of_nat 4.
Proof.
  apply (lookup_histogram_load 6 10 [4; 8; 1; 4; 2; 1]).
  - split_and!; [reflexivity|lia|repeat constructor; lia].
  - vm_compute. reflexivity.
  - vm_compute. discriminate.
  - vm_compute. lia.
Defined.

(** X4: for [0 < K < 2^32 - 1], an item larger than [K] that follows valid
    items makes [best_fit_lookup] read [bin_count] at the item's size, past
    the last entry [K]: the run is out of bounds and returns nothing. *)
Theorem lookup_oversized_item_out_of_bounds n K objects (i : nat) s :
  n = Z.of_nat (length objects) → 0 < K → K < uint_max → n ≤ uint_max →
  (∀ (k : nat) o, (k < i)%nat → objects !! k = Some o → 0 < o ≤ K) →
  objects !! i = Some s → K < s →
  ∃ bc, lk_run n K objects i = Some bc ∧
        Z.of_nat (length bc) = K + 1 ∧ rd bc s = None ∧
        lk_body objects (Z.of_nat i) bc = None ∧
        best_fit_lookup n K objects = None.
Proof.
  intros Hn HK HKm Hnm Hpre Hs HsK.
  pose proof (lookup_lt_Some _ _ _ Hs) as Hil.
  destruct (lk_run_inv_prefix n K objects Hn HK HKm Hnm i ltac:(lia) Hpre)
    as (bc & Hrun & Hlen & _).
  assert (rd bc s = None) as Hrd.
  { unfold rd. case_decide; [|done]. apply lookup_ge_None. lia. }
  assert (lk_body objects (Z.of_nat i) bc = None) as Hbody.
  { unfold lk_body. rewrite rd_nat, Hs. bind_step.
    cbn [search_bin]. by rewrite Hrd. }
  exists bc. split_and!; [done|done|done|done|].
  assert (lk_run n K objects (S i) = None) as Hnone
    by (rewrite lk_run_S, Hrun; bind_step; done).
  unfold best_fit_lookup.
  replace (Z.to_nat n) with (S i + (Z.to_nat n - S i))%nat by lia.
  by rewrite (lk_run_none _ _ _ _ _ Hnone).
Qed.

Lemma lookup_oversized_item_out_of_bounds_witness :
  ∃ bc, lk_run 3 10 [4; 11; 2] 1 = Some bc ∧
        Z.of_nat (length bc) = 10 + 1 ∧ rd bc 11 = None ∧
        lk_body [4; 11; 2] (Z.of_nat 1) bc = None ∧
        best_fit_lookup 3 10 [4; 11; 2] = None.
Proof.
  apply (lookup_oversized_item_out_of_bounds 3 10 [4; 11; 2] 1 11).
  - reflexivity.
  - lia.
  - vm_compute. reflexivity.
  - vm_compute. discriminate.
  - intros [|k] o Hk Ho; [|lia]. injection Ho as <-. lia.
  - reflexivity.
  - lia.
Defined.

(** X5: for [0 < K < 2^32 - 1], an item of size 0 that follows valid items
    leaves the histogram of [best_fit_lookup] as it was: the unit of count
    taken from an entry is put back into the same entry, and no bin comes
    into use. *)
Theorem lookup_zero_item_keeps_histogram n K objects (i : nat) :
  n = Z.of_nat (length objects) → 0 < K → K < uint_max → n ≤ uint_max →
  (∀ (k : nat) o, (k < i)%nat → objects !! k = Some o → 0 < o ≤ K) →
  objects !! i = Some 0 →
  ∃ bc, lk_run n K objects i = Some bc ∧
        lk_run n K objects (S i) = Some bc.
Proof.
  intros Hn HK HKm Hnm Hpre Hs.
  pose proof (lookup_lt_Some _ _ _ Hs) as Hil.
  destruct (lk_run_inv_prefix n K objects Hn HK HKm Hnm i ltac:(lia) Hpre)
    as (bc & Hrun & Hlen & Hnn & Hsum & HbK & Hw).
  exists bc. split; [done|]. rewrite lk_run_S, Hrun. bind_step.
  destruct (search_bin_spec bc K (S (length bc)) 0)
    as (cur & Hc & Hr & Hne & _); [done|done|lia|lia|lia|].
  pose proof (elem_nonneg bc cur Hnn) as Hc0.
  pose proof (elem_le_zsum bc cur Hnn ltac:(lia)) as Hcn.
  unfold lk_body. rewrite rd_nat, Hs. bind_step. rewrite Hc. bind_step.
  rewrite rd_in by lia. bind_step.
  rewrite (u32_small (elem bc cur - 1)) by lia.
  rewrite wr_in by lia. bind_step.
  rewrite Z.sub_0_r, (u32_small cur) by (unfold uint_max in *; lia).
  rewrite rd_in by (rewrite length_insert; lia). bind_step.
  rewrite elem_insert_eq by lia.
  replace (elem bc cur - 1 + 1) with (elem bc cur) by lia.
  rewrite u32_small by lia.
  rewrite wr_in by (rewrite length_insert; lia). f_equal.
  rewrite list_insert_insert_eq. apply list_insert_id, lookup_elem. lia.
Qed.

Lemma lookup_zero_item_keeps_histogram_witness :
  ∃ bc, lk_run 3 10 [4; 0; 2] 1 = Some bc ∧
        lk_run 3 10 [4; 0; 2] 2 = Some bc.
Proof.
  apply (lookup_zero_item_keeps_histogram 3 10 [4; 0; 2] 1).
  - reflexivity.
  - lia.
  - vm_compute. reflexivity.
  - vm_compute. discriminate.
  - intros [|k] o Hk Ho; [|lia]. injection Ho as <-. lia.
  - reflexivity.
Defined.

(** ** [best_fit] when no item fits a bin *)

(** While every item exceeds [K], bin 0 stays empty and each item has
    opened a bin of its own. *)
Lemma bf_oversized_round n K limit objects (k : nat) st s :
  0 ≤ K → n ≤ uint_max → Z.of_nat k < n →
  objects !! k = Some s → K < s → 2 * s ≤ uint_max →
  Z.of_nat (length (bins st)) = n → Z.of_nat (length (positions st)) = n →
  num_open_bins st = Z.of_nat k + 1 →
  (∀ j, 0 ≤ j ≤ Z.of_nat k →
        0 ≤ elem (bins st) j ∧ 2 * elem (bins st) j ≤ uint_max) →
  find_best n K s st = Some (n, 0) ∧
  if decide (Z.of_nat k + 1 < n) then
    ∃ st', bf_body n K limit objects (Z.of_nat k) st = Some st' ∧
           Z.of_nat (length (bins st')) = n ∧
           Z.of_nat (length (positions st')) = n ∧
           num_open_bins st' = Z.of_nat (S k) + 1 ∧
           (∀ j, 0 ≤ j ≤ Z.of_nat (S k) →
                 0 ≤ elem (bins st') j ∧ 2 * elem (bins st') j ≤ uint_max)
  else bf_body n K limit objects (Z.of_nat k) st = None.
Proof.
  intros HK Hnm Hk Hs HsK Hs2 Hlb Hlp Hno Hel.
  destruct (scan_spec n K s (bins st) (Z.to_nat (num_open_bins st)))
    as (best & Hbest & Hscan); [lia|lia| |].
  { intros j Hj. destruct (Hel j) as [H0 H2]; [lia|]. lia. }
  assert (best = (n, 0)) as ->.
  { destruct Hscan as [[-> _]|(Hr & Hc & HcK & _)]; [done|].
    destruct (Hel best.1) as [H0 _]; [lia|]. lia. }
  unfold find_best. split; [done|].
  unfold bf_body. rewrite rd_nat, Hs. bind_step.
  unfold find_best. rewrite Hbest. bind_step.
  cbn [fst]. unfold bf_place. rewrite (decide_False (P := n < n)) by lia.
  destruct (decide (Z.of_nat k + 1 < n)) as [Hroom|Hfull].
  - rewrite wr_in by lia. bind_step. rewrite wr_in by lia. bind_step.
    rewrite u32_small by lia. eexists. split; [done|].
    cbn [bins positions num_open_bins]. rewrite !length_insert.
    split_and!; [done|done|lia|]. intros j Hj. rewrite Hno.
    rewrite elem_insert by lia.
    destruct (decide (j = Z.of_nat k + 1)) as [->|Hne]; [lia|].
    apply Hel. lia.
  - assert (wr (bins st) (num_open_bins st) s = None) as ->; [|done].
    unfold wr. apply decide_False. lia.
Qed.

(** X6: when every item exceeds [K] (and twice an item stays below
    [2^32]), no item ever fits the empty bin 0 that [best_fit] starts with,
    so the [n] items need the slots [1 .. n] and the last one is written
    past the end of [bins]: the run is out of bounds and returns nothing. *)
Theorem all_oversized_out_of_bounds n K min_size objects :
  n = Z.of_nat (length objects) → 1 ≤ n → n ≤ uint_max → 0 ≤ K →
  Forall (λ o, K < o ∧ 2 * o ≤ uint_max) objects →
  best_fit n K min_size objects = None.
Proof.
  intros Hn Hn1 Hnm HK Hall.
  set (limit := u32 (K - min_size)).
  set (Inv := λ (k : nat) st,
         Z.of_nat (length (bins st)) = n ∧
         Z.of_nat (length (positions st)) = n ∧
         num_open_bins st = Z.of_nat k + 1 ∧
         ∀ j, 0 ≤ j ≤ Z.of_nat k →
              0 ≤ elem (bins st) j ∧ 2 * elem (bins st) j ≤ uint_max).
  assert (∀ k : nat, Z.of_nat k < n →
            ∃ s, objects !! k = Some s ∧ K < s ∧ 2 * s ≤ uint_max) as Hobj.
  { intros k Hk. destruct (lookup_lt_is_Some_2 objects k) as [s Hs]; [lia|].
    exists s. split; [done|]. apply (Forall_lookup_1 _ _ _ _ Hall Hs). }
  destruct (for_loop_inv (bf_body n K limit objects) Inv (Z.to_nat n - 1)
              (bf_init n)) with (k := (Z.to_nat n - 1)%nat)
    as (st & Hrun & Hlb & Hlp & Hno & Hel); [| |done|].
  { unfold Inv, bf_init. cbn [bins positions num_open_bins].
    rewrite !length_replicate. split_and!; [lia|lia|done|].
    intros j Hj. replace j with 0 by lia.
    unfold elem. rewrite rd_in by (rewrite length_replicate; lia).
    unfold elem, rd. rewrite decide_True by lia.
    rewrite lookup_replicate_2 by lia. simpl. unfold uint_max. lia. }
  { intros k st Hk (Hlb & Hlp & Hno & Hel).
    destruct (Hobj k) as (s & Hs & HsK & Hs2); [lia|].
    destruct (bf_oversized_round n K limit objects k st s) as [_ Hround];
      [done|done|lia|done|done|done|done|done|done|done|].
    rewrite decide_True in Hround by lia.
    destruct Hround as (st' & Hb & ?). exists st'. done. }
  destruct (Hobj (Z.to_nat n - 1)%nat) as (s & Hs & HsK & Hs2); [lia|].
  destruct (bf_oversized_round n K limit objects (Z.to_nat n - 1) st s)
    as [_ Hround]; [done|done|lia|done|done|done|done|done|done|done|].
  rewrite decide_False in Hround by lia.
  unfold best_fit, bf_run. fold limit.
  replace (Z.to_nat n) with (S (Z.to_nat n - 1)) by lia.
  rewrite for_loop_snoc, Hrun. bind_step. rewrite Z.add_0_l, Hround. done.
Qed.

Lemma all_oversized_out_of_bounds_witness :
  best_fit 3 10 1 [11; 12; 40] = None.
Proof.
  apply (all_oversized_out_of_bounds 3 10 1 [11; 12; 40]).
  - reflexivity.
  - lia.
  - vm_compute. discriminate.
  - lia.
  - repeat constructor; unfold uint_max; lia.
Defined.

(** ** The search and the rounds of [best_fit_heap] on any input *)

(** X7: whatever the array holds, the breadth-first search from the root
    over [num_bins ≥ 1] nodes (fewer than [2^31]) ends within
    [num_bins + 1] dequeues; it returns the initial [(n, 0)] or a node
    index in [1 .. num_bins] together with that node's load plus the item,
    which is at most [K]. *)
Theorem heap_search_terminates n K s e nb :
  1 ≤ nb → nb < Z.of_nat (length e) → 2 * nb + 1 ≤ uint_max →
  ∃ best, bfs (S (Z.to_nat nb)) K s e nb [1] (n, 0) = Some best ∧
          (best = (n, 0) ∨
           (1 ≤ best.1 ≤ nb ∧ best.2 = u32 (elem e best.1 + s) ∧ best.2 ≤ K)).
Proof.
  intros Hnb Hlen Hn2.
  apply (bfs_gen (λ b, b = (n, 0) ∨
                       (1 ≤ b.1 ≤ nb ∧ b.2 = u32 (elem e b.1 + s) ∧ b.2 ≤ K)));
    [done|done| | |lia|by left].
  - intros j Hj Hfit. right. done.
  - simpl. split_and!; [lia|lia|done|constructor].
Qed.

Lemma heap_search_terminates_witness :
  ∃ best, bfs (S (Z.to_nat 4)) 10 3 [0; 7; 9; 2; 5; 0] 4 [1] (6, 0) = Some best ∧
          (best = (6, 0) ∨
           (1 ≤ best.1 ≤ 4 ∧ best.2 = u32 (elem [0; 7; 9; 2; 5; 0] best.1 + 3) ∧
            best.2 ≤ 10)).
Proof.
  apply (heap_search_terminates 6 10 3 [0; 7; 9; 2; 5; 0] 4).
  - lia.
  - simpl. lia.
  - vm_compute. discriminate.
Defined.

(** X8: for any item sizes and any [K], on fewer than [2^31] items,
    [best_fit_heap] stays inside its arrays and returns a bin count between
    0 and [n]: each round opens at most one bin. *)
Theorem heap_count_at_most_n n K objects :
  n = Z.of_nat (length objects) → 2 * n + 1 ≤ uint_max →
  ∃ heap_bins, best_fit_heap n K objects = Some heap_bins ∧ 0 ≤ heap_bins ≤ n.
Proof.
  intros Hn Hn2.
  destruct (for_loop_inv (hp_body n K objects) (hp_shape n) (Z.to_nat n)
              (hp_init n)) with (k := Z.to_nat n)
    as (st & Hrun & Hnum & Hnb & _); [| |done|].
  { apply hp_shape_init. lia. }
  { intros k st Hk Hsh.
    destruct (lookup_lt_is_Some_2 objects k) as [s Hs]; [lia|].
    destruct (hp_body_shape n K objects k st s) as (st' & Hb & _ & Hsh');
      [unfold uint_max in Hn2; lia|done|lia|done|]. eauto. }
  exists (num_bins st). unfold best_fit_heap, hp_run. rewrite Hrun.
  split; [done|lia].
Qed.

Lemma heap_count_at_most_n_witness :
  ∃ heap_bins, best_fit_heap 3 10 [11; 0; 40] = Some heap_bins ∧
               0 ≤ heap_bins ≤ 3.
Proof.
  apply (heap_count_at_most_n 3 10 [11; 0; 40]).
  - reflexivity.
  - vm_compute. discriminate.
Defined.

(** The search keeps its candidate when no node would end fuller. *)
Lemma bfs_no_improve K s e nb fuel q best :
  nb < Z.of_nat (length e) → 2 * nb + 1 ≤ uint_max →
  (∀ j, 1 ≤ j ≤ nb → u32 (elem e j + s) ≤ best.2) →
  qinv nb q →
  match q with [] => True | j :: _ => nb < j + Z.of_nat fuel end →
  bfs fuel K s e nb q best = Some best.
Proof.
  intros Hlen Hnb Hmax. revert q.
  induction fuel as [|f IH]; intros q Hq Hf.
  { destruct q as [|j rest]; [done|]. destruct Hq as (Hj & _). lia. }
  destruct q as [|j rest]; [done|].
  pose proof Hq as (Hj & Hs & HF).
  cbn [bfs]. rewrite rd_in by lia. bind_step.
  destruct (decide (u32 (elem e j + s) ≤ K)) as [Hfit|Hnofit].
  - rewrite !(u32_small (2 * j)), !(u32_small (2 * j + 1)) by lia.
    rewrite (decide_False (P := best.2 < u32 (elem e j + s)))
      by (specialize (Hmax j Hj); lia).
    set (ext := (if decide (2 * j ≤ nb) then [2 * j] else []) ++
                (if decide (2 * j + 1 ≤ nb) then [2 * j + 1] else [])).
    assert ((if decide (2 * j + 1 ≤ nb)
             then (if decide (2 * j ≤ nb) then rest ++ [2 * j] else rest)
                    ++ [2 * j + 1]
             else if decide (2 * j ≤ nb) then rest ++ [2 * j] else rest)
            = rest ++ ext) as ->.
    { unfold ext. repeat case_decide; simpl; rewrite <- ?app_assoc, ?app_nil_r;
        done. }
    destruct (qinv_next nb j rest ext Hq) as [Hq' Hhd].
    { unfold ext. repeat case_decide; simpl; lia. }
    { unfold ext. repeat case_decide; simpl; repeat constructor; lia. }
    apply IH; [done|]. destruct (rest ++ ext); [done|lia].
  - destruct (qinv_next nb j rest [] Hq) as [Hq' Hhd]; [done|constructor|].
    rewrite app_nil_r in *. apply IH; [done|]. destruct rest; [done|lia].
Qed.

(** X9: on a valid instance (with [2K] and [2n + 1] below [2^32]) the
    search of [best_fit_heap] never picks a bin other than the root: the
    item goes to the fullest bin when the heap is not empty and that bin
    can take it, and to a new bin otherwise. *)
Theorem heap_fills_the_root n K objects (i : nat) :
  valid_instance n K objects → 2 * K ≤ uint_max → 2 * n + 1 ≤ uint_max →
  Z.of_nat i < n →
  ∃ st s,
    hp_run n K objects i = Some st ∧ objects !! i = Some s ∧
    (∀ j, 1 ≤ j ≤ num_bins st →
          elem (elements (hp_bins st)) j ≤ elem (elements (hp_bins st)) 1) ∧
    hp_find n K s st =
      Some (if decide (num_bins st ≠ 0 ∧
                       elem (elements (hp_bins st)) 1 + s ≤ K)
            then (1, elem (elements (hp_bins st)) 1 + s) else (n, 0)).
Proof.
  intros Hv HK2 Hn2 Hi. pose proof Hv as (Hn & HK & Hall).
  destruct (hp_run_inv n K objects Hv HK2 Hn2 i ltac:(lia))
    as (st & Hrun & Hnum & Hnb & Hlen & Hheap & Hsum & Halle & Hout).
  destruct (valid_lookup n K objects i Hv Hi) as (s & Hs & Hsr).
  apply max_heap_parent in Hheap.
  exists st, s. split_and!; [done|done|intros j Hj; by apply (root_max _ (num_bins st))|].
  set (e := elements (hp_bins st)) in *. set (nb := num_bins st) in *.
  unfold hp_find. fold e nb.
  destruct (decide (nb ≠ 0)) as [Hne|Hz].
  2:{ rewrite decide_False by tauto. done. }
  rewrite rd_in by lia. bind_step.
  pose proof (Forall_elem _ _ 1 Halle ltac:(lia)) as Hroot. cbn beta in Hroot.
  rewrite u32_small by lia.
  destruct (decide (elem e 1 + s ≤ K)) as [Hfit|Hnofit].
  2:{ rewrite decide_False by tauto. done. }
  rewrite decide_True by done.
  cbn [bfs]. rewrite rd_in by lia. bind_step.
  rewrite (u32_small (elem e 1 + s)) by lia.
  rewrite decide_True by done.
  rewrite (decide_True (P := (n, 0).2 < elem e 1 + s)) by (simpl; lia).
  rewrite !(u32_small (2 * 1)), !(u32_small (2 * 1 + 1)) by lia.
  set (ext := (if decide (2 * 1 ≤ nb) then [2 * 1] else []) ++
              (if decide (2 * 1 + 1 ≤ nb) then [2 * 1 + 1] else [])).
  assert ((if decide (2 * 1 + 1 ≤ nb)
           then (if decide (2 * 1 ≤ nb) then [] ++ [2 * 1] else [])
                  ++ [2 * 1 + 1]
           else if decide (2 * 1 ≤ nb) then [] ++ [2 * 1] else [])
          = [] ++ ext) as ->.
  { unfold ext. repeat case_decide; simpl; done. }
  destruct (qinv_next nb 1 [] ext) as [Hq' Hhd].
  { simpl. split_and!; [lia|lia|done|constructor]. }
  { unfold ext. repeat case_decide; simpl; lia. }
  { unfold ext. repeat case_decide; simpl; repeat constructor; lia. }
  apply bfs_no_improve; [lia|lia| |done|].
  - intros j Hj. cbn [snd].
    pose proof (Forall_elem _ _ j Halle ltac:(lia)) as Hbj. cbn beta in Hbj.
    rewrite u32_small by lia.
    pose proof (root_max e nb j Hheap Hj). lia.
  - destruct ([] ++ ext); [done|lia].
Qed.

Lemma heap_fills_the_root_witness :
  ∃ st s,
    hp_run 6 10 [4; 8; 1; 4; 2; 1] 4 = Some st ∧
    [4; 8; 1; 4; 2; 1] !! 4%nat = Some s ∧
    (∀ j, 1 ≤ j ≤ num_bins st →
          elem (elements (hp_bins st)) j ≤ elem (elements (hp_bins st)) 1) ∧
    hp_find 6 10 s st =
      Some (if decide (num_bins st ≠ 0 ∧
                       elem (elements (hp_bins st)) 1 + s ≤ 10)
            then (1, elem (elements (hp_bins st)) 1 + s) else (6, 0)).
Proof.
  apply (heap_fills_the_root 6 10 [4; 8; 1; 4; 2; 1] 4).
  - split_and!; [reflexivity|lia|repeat constructor; lia].
  - vm_compute. discriminate.
  - vm_compute. discriminate.
  - lia.
Defined.

(** ** [best_fit] without retirement *)

Lemma bin_load_snoc objs pos s p b :
  length objs = length pos →
  bin_load (objs ++ [s]) (pos ++ [p]) b =
  bin_load objs pos b + (if decide (p = b) then s else 0).
Proof.
  intros Hlen. unfold bin_load.
  rewrite zip_with_app by done. rewrite fmap_app, zsum_app. simpl. lia.
Qed.

Lemma elem_snoc l x b :
  0 ≤ b →
  elem (l ++ [x]) b = if decide (b = Z.of_nat (length l)) then x else elem l b.
Proof.
  intros Hb. destruct (decide (b = Z.of_nat (length l))) as [->|Hne];
    unfold elem, rd; rewrite ?(decide_True (P := 0 ≤ _)) by lia.
  - rewrite Nat2Z.id, lookup_app_r by lia. by rewrite Nat.sub_diag.
  - destruct (decide (b < Z.of_nat (length l))).
    + by rewrite lookup_app_l by lia.
    + rewrite !lookup_ge_None_2; [done|lia|rewrite length_app; simpl; lia].
Qed.

(** With [min_size = 0] the limit is [K] itself and no bin is retired, so
    the slot of a bin is its identity: [positions] records a packing. *)
Lemma bf_keep_round K objects (i : nat) n s st st' :
  bf_basic n K i st → Z.of_nat i < n → objects !! i = Some s →
  bf_move K K s i st st' →
  num_full_bins st = 0 →
  (∀ b, 0 ≤ b → bin_load (take i objects) (take i (positions st)) b
                 = elem (open_bins st) b) →
  num_full_bins st' = 0 ∧
  ∀ b, 0 ≤ b → bin_load (take (S i) objects) (take (S i) (positions st')) b
                = elem (open_bins st') b.
Proof.
  intros Hb Hi Hs Hmove Hnf0 Hload.
  pose proof (open_bins_length _ _ _ _ Hb) as Hol.
  destruct Hb as (Hlb & Hlp & Ho & Hf & Hle & Hall & Hused).
  pose proof (lookup_lt_Some _ _ _ Hs) as Hio.
  assert (∀ p, take (S i) (<[i := p]> (positions st))
               = take i (positions st) ++ [p]) as Htake.
  { intros p. rewrite (take_S_r _ _ p) by (apply list_lookup_insert_eq; lia).
    by rewrite take_insert_ge by lia. }
  assert (length (take i objects) = length (take i (positions st))) as Hlt
    by (rewrite !length_take; lia).
  destruct Hmove as [j b0 Hbc Hj Hlim Hopen Hno Hnf Hp
                    |j b0 Hbc Hj Hlim Hopen Hno Hnf Hp
                    |Hnone Hopen Hno Hnf Hp].
  - split; [lia|]. intros b Hb0. pose proof (lookup_lt_Some _ _ _ Hj).
    rewrite Hp, Htake, (take_S_r _ _ _ Hs), bin_load_snoc, Hload by done.
    rewrite Hopen.
    replace (<[j := b0 + s]> (open_bins st))
      with (<[Z.to_nat (Z.of_nat j) := b0 + s]> (open_bins st))
      by (by rewrite Nat2Z.id).
    rewrite elem_insert by lia.
    destruct (decide (b = Z.of_nat j)) as [->|Hne].
    + rewrite decide_True by done.
      assert (elem (open_bins st) (Z.of_nat j) = b0) as ->; [|done].
      apply rd_elem. by rewrite rd_nat.
    + rewrite decide_False by lia. lia.
  - destruct (best_choice_lookup _ _ _ _ _ Hbc Hj) as [Hfit _]. lia.
  - split; [lia|]. intros b Hb0.
    rewrite Hp, Htake, (take_S_r _ _ _ Hs), bin_load_snoc, Hload by done.
    rewrite Hopen, elem_snoc, Hol by done.
    destruct (decide (b = num_open_bins st)) as [->|Hne].
    + rewrite decide_True by done.
      assert (elem (open_bins st) (num_open_bins st) = 0) as ->; [|lia].
      unfold elem, rd. rewrite decide_True by lia.
      by rewrite lookup_ge_None_2 by lia.
    + rewrite decide_False by lia. lia.
Qed.

(** X10: with [min_size = 0], on a valid instance with at least one item and
    [2K] below [2^32], [best_fit] retires no bin, and the items that
    [positions] sends to any one bin index sum to at most [K]. *)
Theorem no_retirement_valid_packing n K objects :
  valid_instance n K objects → 2 * K ≤ uint_max → n ≤ uint_max → 1 ≤ n →
  ∃ bins_used pos,
    best_fit n K 0 objects = Some (bins_used, pos) ∧
    ∀ b, 0 ≤ b → 0 ≤ bin_load objects pos b ≤ K.
Proof.
  intros Hv HK2 Hnm Hn1. pose proof Hv as (Hn & HK & Hall).
  assert (u32 (K - 0) = K) as Hlim by (rewrite u32_small; lia).
  destruct (for_loop_inv (bf_body n K (u32 (K - 0)) objects)
              (λ i st, bf_basic n K i st ∧ num_full_bins st = 0 ∧
                 ∀ b, 0 ≤ b →
                   bin_load (take i objects) (take i (positions st)) b
                   = elem (open_bins st) b)
              (Z.to_nat n) (bf_init n)) with (k := Z.to_nat n)
    as (st & Hrun & Hb & Hnf & Hload); [| |done|].
  { split_and!; [apply bf_basic_init; lia|done|].
    intros b Hb0. rewrite !take_0.
    assert (open_bins (bf_init n) = [0]) as ->.
    { unfold open_bins, bf_init. cbn [bins num_open_bins].
      destruct (Z.to_nat n) as [|k] eqn:E; [lia|]. simpl. by rewrite take_0. }
    unfold bin_load, elem, rd. simpl. case_decide; [|done].
    by destruct (Z.to_nat b) as [|[|?]]. }
  { intros k st Hk (Hb & Hnf & Hload).
    destruct (valid_lookup n K objects k Hv) as (s & Hs & Hsr); [lia|].
    destruct (bf_body_spec n K (u32 (K - 0)) objects k st s)
      as (st' & Hbody & Hlen & Hmove); [done|done|done|lia|done|done|].
    exists st'. split; [done|]. split.
    - apply (bf_basic_step n K (u32 (K - 0)) s k st st');
        [done|lia|done|done|done].
    - rewrite Hlim in Hmove.
      apply (bf_keep_round K objects k n s st st'); [done|lia|done..]. }
  exists (bf_count st), (positions st). unfold best_fit, bf_run. rewrite Hrun.
  split; [done|]. intros b Hb0.
  destruct Hb as (Hlb & Hlp & Ho & Hf & Hle & Hopen & _).
  specialize (Hload b Hb0). rewrite !take_ge in Hload by lia. rewrite Hload.
  unfold elem. destruct (rd (open_bins st) b) as [v|] eqn:E; simpl; [|lia].
  unfold rd in E. case_decide; [|done].
  apply (Forall_lookup_1 _ _ _ _ Hopen E).
Qed.

Lemma no_retirement_valid_packing_witness :
  ∃ bins_used pos,
    best_fit 4 10 0 [5; 6; 5; 4] = Some (bins_used, pos) ∧
    ∀ b, 0 ≤ b → 0 ≤ bin_load [5; 6; 5; 4] pos b ≤ 10.
Proof.
  apply (no_retirement_valid_packing 4 10 [5; 6; 5; 4]).
  - split; [reflexivity|]. split; [lia|repeat constructor; lia].
  - vm_compute. discriminate.
  - vm_compute. discriminate.
  - lia.
Defined.
